(** * The signal / target notification system and the two command
      interpreters of the portfolio application

    A shallow embedding of
    - the target registry and the signal dispatcher of [AppContent]
      (index.tsx: [registerTarget], [emitSignal], [hitTarget]),
    - the per-signal renderer (SignalPacket.tsx),
    - the display components that read the hit state (SkillNode.tsx,
      TimelineItem.tsx),
    - the terminal emulator (Terminal.tsx: [handleCommand]) and the command
      palette (VimCommandPalette.tsx: [handleSubmit]),
    - the keyboard navigation and the theme effect of [AppContent], the
      coverage bins of a skill node, the waveform view
      (WaveformViewer.tsx over traceData.ts), the boot log
      (BootSequence.tsx), the gutter (VimGutter.tsx) and the scrambled
      title (CyberText.tsx).

    Conventions of the embedding.
    - A JavaScript number that holds a coordinate or a random draw is a
      rational ([Q]); a number that holds an array index or a clock value in
      milliseconds is a [nat] or a [Z].
    - A JavaScript string is a [string] whose characters are the code units
      U+0000 .. U+00FF.
    - A React ref object is compared by identity, so a handle is the
      identity of the ref, a [nat].
    - React state updates and timers are explicit state passing over
      [AppState]; the timer queue runs on a virtual clock counted in
      milliseconds, a timer being run by the tick in which the clock
      reaches its due time. *)

From Stdlib Require Import Ascii String QArith Qround Qminmax Lqa.
From stdpp Require Import base decidable list strings gmap pretty.

Local Open Scope string_scope.
Local Open Scope list_scope.

(** ** Host primitives *)

Module JS.

(** Code units matched by [\s] and stripped by [String.prototype.trim]
    among U+0000 .. U+00FF: TAB, LF, VT, FF, CR, SPACE and NBSP. *)
Definition isWhiteSpace (c : ascii) : bool :=
  let n := nat_of_ascii c in
  ((9 <=? n)%nat && (n <=? 13)%nat) || (n =? 32)%nat || (n =? 160)%nat.

Fixpoint trimStart (s : string) : string :=
  match s with
  | EmptyString => EmptyString
  | String c s' => if isWhiteSpace c then trimStart s' else s
  end.

Fixpoint trimEnd (s : string) : string :=
  match s with
  | EmptyString => EmptyString
  | String c s' =>
      match trimEnd s' with
      | EmptyString => if isWhiteSpace c then EmptyString else String c EmptyString
      | t => String c t
      end
  end.

(** [s.trim()] *)
Definition trim (s : string) : string := trimEnd (trimStart s).

(** [s.split(/\s+/)]: the pieces between maximal runs of white space.
    [inSep] tells that the previous code unit belonged to a separator. *)
Fixpoint splitWs (inSep : bool) (s : string) : list string :=
  match s with
  | EmptyString => [EmptyString]
  | String c s' =>
      if isWhiteSpace c then
        if inSep then splitWs true s' else EmptyString :: splitWs true s'
      else
        match splitWs false s' with
        | t :: ts => String c t :: ts
        | [] => [String c EmptyString]
        end
  end.

Definition split_ws (s : string) : list string := splitWs false s.

(** [c.toLowerCase()] on U+0000 .. U+00FF: A-Z and the accented capitals
    U+00C0 .. U+00DE, the multiplication sign U+00D7 apart. *)
Definition toLowerCaseChar (c : ascii) : ascii :=
  let n := nat_of_ascii c in
  if ((65 <=? n)%nat && (n <=? 90)%nat)
     || ((192 <=? n)%nat && (n <=? 222)%nat && negb (n =? 215)%nat)
  then ascii_of_nat (n + 32) else c.

Fixpoint toLowerCase (s : string) : string :=
  match s with
  | EmptyString => EmptyString
  | String c s' => String (toLowerCaseChar c) (toLowerCase s')
  end.

(** [s.substr(start, length)] for a start that is not negative: the code
    units from [start] on, [length] of them at most. *)
Definition substr (start len : nat) (s : string) : string :=
  substring start len s.

(** [`${n}`] for a non-negative integer [n]. *)
Definition numberToString (n : nat) : string := pretty n.

(** [Math.floor(x)] *)
Definition floor (x : Q) : Z := Qfloor x.

(** [xs[i]] for a number [i] that holds an integer: [undefined] ([None])
    outside of the array. *)
Definition index {A : Type} (xs : list A) (i : Z) : option A :=
  if (i <? 0)%Z then None else xs !! Z.to_nat i.

(** [xs.indexOf(x)], with [None] for -1. *)
Fixpoint indexOf (xs : list nat) (x : nat) : option nat :=
  match xs with
  | [] => None
  | y :: ys => if (y =? x)%nat then Some 0%nat else S <$> indexOf ys x
  end.

(** [xs.includes(x)] *)
Definition includes (xs : list nat) (x : nat) : bool :=
  existsb (fun y => (y =? x)%nat) xs.

End JS.

(** ** The target registry *)

(** The identity of a [React.RefObject]. *)
Definition Handle := nat.

(** ['skills' | 'trace'] *)
Inductive Category : Type := cat_skills | cat_trace.

#[global] Instance Category_eq_dec : EqDecision Category.
Proof. solve_decision. Defined.

Record TargetRegistry : Type := mkRegistry {
  skills : list Handle;
  trace : list Handle
}.

(** [targets.current[type]] *)
Definition category_of (t : TargetRegistry) (type : Category) : list Handle :=
  match type with
  | cat_skills => skills t
  | cat_trace => trace t
  end.

(** [targets.current[type].push(ref)] *)
Definition push (type : Category) (ref : Handle) (t : TargetRegistry)
  : TargetRegistry :=
  match type with
  | cat_skills => {| skills := skills t ++ [ref]; trace := trace t |}
  | cat_trace => {| skills := skills t; trace := trace t ++ [ref] |}
  end.

Definition registerTarget (type : Category) (ref : Handle) (t : TargetRegistry)
  : TargetRegistry :=
  if negb (JS.includes (category_of t type) ref) then push type ref t else t.

(** [useRef<TargetRegistry>({ skills: [], trace: [] })] *)
Definition empty_registry : TargetRegistry := {| skills := []; trace := [] |}.

(** ** The signal dispatcher (index.tsx, [AppContent]) *)

(** [DOMRect], as far as the application reads it. *)
Module DOMRect.
Record t : Type := mk { left : Q; top : Q; width : Q; height : Q }.
End DOMRect.

(** SignalContext.tsx, [SignalType]. *)
Module SignalContext.
Record SignalType : Type := mkSignal {
  id : string;
  startX : Q;
  startY : Q;
  color : string
}.
End SignalContext.

Module AppContent.

(** The two callbacks the dispatcher hands to [setTimeout]. *)
Inductive TimerAction : Type :=
| RemoveSignal (id : string)   (* setSignals(prev => prev.filter(s => s.id !== id)) *)
| RemoveHit (id : string).     (* setActiveHits(prev => prev minus id) *)

Record AppState : Type := mkState {
  now : nat;                                   (* virtual clock, ms *)
  signals : list SignalContext.SignalType;     (* useState<SignalType[]>([]) *)
  activeHits : gset string;                    (* useState<Set<string>>(new Set()) *)
  targets : TargetRegistry;                    (* useRef<TargetRegistry>(...) *)
  timers : list (nat * TimerAction)            (* pending setTimeout callbacks: due time, action *)
}.

Definition init : AppState :=
  {| now := 0; signals := []; activeHits := ∅;
     targets := empty_registry; timers := [] |}.

(** [setTimeout(action, delay)] *)
Definition setTimeout (action : TimerAction) (delay : nat) (s : AppState)
  : AppState :=
  {| now := now s; signals := signals s; activeHits := activeHits s;
     targets := targets s;
     timers := timers s ++ [((now s + delay)%nat, action)] |}.

(** [emitSignal(rect, color)]; [rnd36] is the text that
    [Math.random().toString(36)] evaluates to in this call (["0.i"] when
    the draw is 0.5). *)
Definition emitSignal (rect : DOMRect.t) (color : string) (rnd36 : string)
    (s : AppState) : AppState :=
  let id := JS.substr 2 9 rnd36 in
  let startX := (DOMRect.left rect + DOMRect.width rect / 2)%Q in
  let startY := (DOMRect.top rect + DOMRect.height rect / 2)%Q in
  setTimeout (RemoveSignal id) 2500
    {| now := now s;
       signals := signals s ++ [SignalContext.mkSignal id startX startY color];
       activeHits := activeHits s; targets := targets s;
       timers := timers s |}.

(** [hitTarget(id)] *)
Definition hitTarget (id : string) (s : AppState) : AppState :=
  setTimeout (RemoveHit id) 500
    {| now := now s; signals := signals s;
       activeHits := {[ id ]} ∪ activeHits s;
       targets := targets s; timers := timers s |}.

(** What a timer callback does when it runs. *)
Definition run_timer (a : TimerAction) (s : AppState) : AppState :=
  match a with
  | RemoveSignal id =>
      {| now := now s;
         signals := filter (fun sg => SignalContext.id sg ≠ id) (signals s);
         activeHits := activeHits s; targets := targets s;
         timers := timers s |}
  | RemoveHit id =>
      {| now := now s; signals := signals s;
         activeHits := activeHits s ∖ {[ id ]};
         targets := targets s; timers := timers s |}
  end.

Definition is_due (t : nat) (tm : nat * TimerAction) : Prop := (tm.1 <= t)%nat.

#[global] Instance is_due_dec t tm : Decision (is_due t tm).
Proof. unfold is_due. apply _. Defined.

(** One millisecond passes: the timers that are due leave the queue and
    run, in the order they were set. Events that happen at a time are
    steps taken after the tick that reaches it. *)
Definition tick (s : AppState) : AppState :=
  let t := S (now s) in
  let due := filter (is_due t) (timers s) in
  let rest := filter (fun tm => ¬ is_due t tm) (timers s) in
  foldl (fun st tm => run_timer tm.2 st)
    {| now := t; signals := signals s; activeHits := activeHits s;
       targets := targets s; timers := rest |}
    due.

(** What can happen to the dispatcher. *)
Inductive Event : Type :=
| Register (type : Category) (ref : Handle)
| Emit (rect : DOMRect.t) (color : string) (rnd36 : string)
| Hit (id : string)
| Tick.

Definition step (s : AppState) (e : Event) : AppState :=
  match e with
  | Register type ref =>
      {| now := now s; signals := signals s; activeHits := activeHits s;
         targets := registerTarget type ref (targets s);
         timers := timers s |}
  | Emit rect color rnd36 => emitSignal rect color rnd36 s
  | Hit id => hitTarget id s
  | Tick => tick s
  end.

Definition run (evs : list Event) (s : AppState) : AppState :=
  foldl step s evs.

(** Milliseconds that pass during a run. *)
Fixpoint elapsed (evs : list Event) : nat :=
  match evs with
  | [] => 0
  | Tick :: evs' => S (elapsed evs')
  | _ :: evs' => elapsed evs'
  end.

End AppContent.

(** ** The signal renderer (SignalPacket.tsx) *)

Module SignalPacket.

Record Point : Type := mkPoint { x : Q; y : Q }.

(** What the renderer reads from the document: the scroll offsets and,
    for a ref, the bounding rectangle of the element it holds ([None]
    when [ref.current] is null). *)
Record Document : Type := mkDocument {
  scrollX : Q;
  scrollY : Q;
  current : Handle -> option DOMRect.t
}.

(** The two [useMemo] cells of one instance; [None] before the first
    render, afterwards the stored pick, which is [undefined]
    ([Some None]) when the category was empty. *)
Record Hooks : Type := mkHooks {
  skillCell : option (option Handle);
  traceCell : option (option Handle)
}.

Definition fresh : Hooks := {| skillCell := None; traceCell := None |}.

(** [useMemo(factory, [])]: the stored value when there is one. *)
Definition useMemo {A : Type} (cell : option A) (factory : A) : A :=
  match cell with
  | Some v => v
  | None => factory
  end.

(** [list[Math.floor(Math.random() * list.length)]], [rnd] being the
    draw. *)
Definition pick (list : list Handle) (rnd : Q) : option Handle :=
  JS.index list (JS.floor (rnd * inject_Z (Z.of_nat (length list)))).

Definition getPos (d : Document) (ref : option Handle) : Point :=
  match ref with
  | None => {| x := 0; y := 0 |}
  | Some h =>
      match current d h with
      | None => {| x := 0; y := 0 |}
      | Some rect =>
          {| x := DOMRect.left rect + DOMRect.width rect / 2 + scrollX d;
             y := DOMRect.top rect + DOMRect.height rect / 2 + scrollY d |}
      end
  end.

(** The [animate] and [transition] props handed to the motion element. *)
Record Animation : Type := mkAnimation {
  left : list Q;
  top : list Q;
  opacity : list Q;
  scale : list Q;
  duration : Q;
  times : list Q;
  ease : string
}.

Record Rendering : Type := mkRendering {
  skillTarget : option Handle;
  traceTarget : option Handle;
  start : Point;
  safeMid : Point;
  safeEnd : Point;
  animate : Animation
}.

(** One render of the component. [rnd1] and [rnd2] are the draws
    [Math.random()] would give to the two factories. *)
Definition render (signal : SignalContext.SignalType) (targets : TargetRegistry)
    (d : Document) (rnd1 rnd2 : Q) (h : Hooks) : Hooks * Rendering :=
  let skillTarget := useMemo (skillCell h) (pick (skills targets) rnd1) in
  let traceTarget := useMemo (traceCell h) (pick (trace targets) rnd2) in
  let start := {| x := SignalContext.startX signal + scrollX d;
                  y := SignalContext.startY signal + scrollY d |} in
  let mid := getPos d skillTarget in
  let end_ := getPos d traceTarget in
  let safeMid :=
    if Qeq_bool (y mid) 0 then {| x := x start; y := y start + 800 |} else mid in
  let safeEnd :=
    if Qeq_bool (y end_) 0 then {| x := x safeMid; y := y safeMid + 800 |} else end_ in
  ({| skillCell := Some skillTarget; traceCell := Some traceTarget |},
   {| skillTarget := skillTarget; traceTarget := traceTarget;
      start := start; safeMid := safeMid; safeEnd := safeEnd;
      animate :=
        {| left := [x start; x safeMid; x safeEnd];
           top := [y start; y safeMid; y safeEnd];
           opacity := [1; 1; 0]%Q;
           scale := [1; 1; 0]%Q;
           duration := 5 # 2;
           times := [0; 4 # 10; 1]%Q;
           ease := "easeInOut" |} |}).

(** The callback of the first timer: the argument it passes to [onHit],
    if it calls it. [targets] is the registry as it is when the timer
    runs. *)
Definition t1 (targets : TargetRegistry) (skillTarget : option Handle)
  : option string :=
  match skillTarget with
  | Some h =>
      match JS.indexOf (skills targets) h with
      | Some idx => Some ("skill-" +:+ JS.numberToString idx)
      | None => None
      end
  | None => None
  end.

(** The callback of the second timer. *)
Definition t2 (targets : TargetRegistry) (traceTarget : option Handle)
  : option string :=
  match traceTarget with
  | Some h =>
      match JS.indexOf (trace targets) h with
      | Some idx => Some ("trace-" +:+ JS.numberToString idx)
      | None => None
      end
  | None => None
  end.

(** The delays of the two timers, in milliseconds. *)
Definition t1_delay : nat := 1000.
Definition t2_delay : nat := 2000.

End SignalPacket.

(** ** The display components (SkillNode.tsx, TimelineItem.tsx) *)

Module SkillNode.
(** [`skill-${index}`] *)
Definition id (index : nat) : string := "skill-" +:+ JS.numberToString index.
(** The effect run on mount. *)
Definition mount (ref : Handle) (t : TargetRegistry) : TargetRegistry :=
  registerTarget cat_skills ref t.
Definition isHit (activeHits : gset string) (index : nat) : bool :=
  bool_decide (id index ∈ activeHits).
End SkillNode.

Module TimelineItem.
(** [`trace-${index}`] *)
Definition id (index : nat) : string := "trace-" +:+ JS.numberToString index.
Definition mount (ref : Handle) (t : TargetRegistry) : TargetRegistry :=
  registerTarget cat_trace ref t.
Definition isHit (activeHits : gset string) (index : nat) : bool :=
  bool_decide (id index ∈ activeHits).
End TimelineItem.

(** ** The command interpreters *)

(** ['default' | 'silicon' | 'light'] *)
Inductive Theme : Type := theme_default | theme_silicon | theme_light.

(** [a === v] for an [a] that is a string or [undefined]. *)
Definition is_string (a : option string) (v : string) : bool :=
  match a with
  | Some s => String.eqb s v
  | None => false
  end.

(** *** Terminal.tsx *)

Module Terminal.

Inductive LineType : Type := input_line | output_line.

(** What a history line holds: a text, or, when the command names a
    member that the table inherits from [Object.prototype], that member. *)
Inductive Content : Type :=
| Text (s : string)
| Inherited (key : string).

Record Line : Type := mkLine { type : LineType; content : Content }.

(** Which of the optional callbacks the parent passes. *)
Record Props : Type := mkProps { onClose : bool; onThemeChange : bool }.

Record State : Type := mkState { history : list Line; input : string }.

Inductive Effect : Type :=
| ThemeChange (t : Theme)          (* onThemeChange(t) *)
| Download (filename : string).    (* the resume text offered as a file *)

Definition quote : string := String (ascii_of_nat 34) EmptyString.

Definition initial : State :=
  {| history :=
       [ mkLine output_line (Text "MishatOS v2.0.0 [Senior Build]");
         mkLine output_line
           (Text ("Type " +:+ quote +:+ "help" +:+ quote +:+ " for instructions.")) ];
     input := "" |}.

Definition COMMANDS : gmap string string :=
  list_to_map
    [ ("help", "Available commands: help, whoami, skills, contact, clear, run_test, resume, theme [silicon|light|dark]");
      ("whoami", "Mishat | Senior Design Verification Engineer @ Marvell Technology. Obsessed with zero bugs.");
      ("skills", "SystemVerilog, UVM, Python, Formal Verification, Verdi, DVE, C++");
      ("contact", "Email: mishath@mun.ca | LinkedIn: in/mishathassan");
      ("run_test", "Starting UVM Sequence...
Running test_soc_boot...
Wait for interrupt...
TEST PASSED (Coverage: 100%)") ].

(** [COMMANDS[cmd]]: an own entry, or one of the two members of
    [Object.prototype] whose names a lower-cased token can spell. *)
Definition lookup (cmd : string) : option Content :=
  match COMMANDS !! cmd with
  | Some s => Some (Text s)
  | None =>
      if String.eqb cmd "constructor" || String.eqb cmd "__proto__"
      then Some (Inherited cmd) else None
  end.

(** [v || fallback] *)
Definition or_else (v : option Content) (fallback : string) : Content :=
  match v with
  | Some (Text EmptyString) => Text fallback
  | Some c => c
  | None => Text fallback
  end.

(** [setHistory(prev => [...prev, input line, output line]); setInput('')] *)
Definition reply (s : State) (out : Content) : State :=
  {| history := history s ++ [ mkLine input_line (Text (input s));
                               mkLine output_line out ];
     input := "" |}.

Definition theme_effect (p : Props) (t : Theme) : list Effect :=
  if onThemeChange p then [ThemeChange t] else [].

(** The submit handler: the state after it and the effects it has, in
    order. Its first statement, [e.preventDefault()], keeps the browser
    from submitting the form on every path and is not listed. *)
Definition handleCommand (p : Props) (s : State) : State * list Effect :=
  if String.eqb (JS.trim (input s)) "" then (s, [])
  else
    let rawCmd := JS.trim (input s) in
    let args := JS.split_ws rawCmd in
    let cmd := JS.toLowerCase (hd EmptyString args) in
    let arg1 := JS.toLowerCase <$> args !! 1%nat in
    if String.eqb cmd "clear" then
      ({| history := []; input := "" |}, [])
    else if String.eqb cmd "theme" then
      if is_string arg1 "silicon" then
        (reply s (Text "SWITCHING TO RTL VIEW... GATE LEVEL PRIMITIVES EXPOSED."),
         theme_effect p theme_silicon)
      else if is_string arg1 "dark" then
        (reply s (Text "REVERTING TO ABSTRACTION LAYER 0."),
         theme_effect p theme_default)
      else if is_string arg1 "light" then
        (reply s (Text "ACTIVATING CLEAN ROOM PROTOCOLS... ILLUMINATION: 100%"),
         theme_effect p theme_light)
      else
        (reply s (Text "Usage: theme [silicon | light | dark]"), [])
    else if String.eqb cmd "resume" then
      (reply s (Text "Initiating download sequence for Mishat_Hassan_Resume.txt..."),
       [Download "Mishat_Hassan_Resume.txt"])
    else
      (reply s (or_else (lookup cmd) ("bash: " +:+ cmd +:+ ": command not found")),
       []).

End Terminal.

(** *** VimCommandPalette.tsx *)

Module VimCommandPalette.

Inductive ScrollPos : Type := page_top | page_bottom.

Inductive Effect : Type :=
| Close                                      (* onClose() *)
| ThemeChange (t : Theme)                    (* onThemeChange(t) *)
| ScrollTo (pos : ScrollPos)                 (* window.scrollTo(...) *)
| ScrollIntoView (elementId : string)        (* getElementById(id)?.scrollIntoView(...) *)
| Download (href filename : string).         (* the link that is clicked *)

(** What a handler does: the effects in order, and the message it passes
    to [setOutput] if it calls it. *)
Record Outcome : Type := mkOutcome {
  effects : list Effect;
  message : option string
}.

Definition CommandHandler : Type := list string -> Outcome.

Definition closes : CommandHandler :=
  fun _ => {| effects := [Close]; message := None |}.

Definition theme : CommandHandler := fun args =>
  let theme := JS.toLowerCase <$> args !! 0%nat in
  if is_string theme "silicon" then
    {| effects := [ThemeChange theme_silicon]; message := Some "SWITCHING TO RTL VIEW..." |}
  else if is_string theme "light" then
    {| effects := [ThemeChange theme_light]; message := Some "CLEAN ROOM MODE ACTIVATED" |}
  else if is_string theme "dark" || is_string theme "default" then
    {| effects := [ThemeChange theme_default]; message := Some "ABSTRACTION LAYER 0" |}
  else
    {| effects := []; message := Some "Usage: theme [dark|light|silicon]" |}.

Definition scrolls (pos : ScrollPos) : CommandHandler :=
  fun _ => {| effects := [ScrollTo pos; Close]; message := None |}.

Definition shows (elementId : string) : CommandHandler :=
  fun _ => {| effects := [ScrollIntoView elementId; Close]; message := None |}.

Definition COMMANDS : gmap string CommandHandler :=
  list_to_map
    [ ("help", fun _ =>
         {| effects := [];
            message := Some "Commands: help, q, wq, theme [dark|light|silicon], colorscheme, top, $, contact, skills, resume" |});
      ("q", closes); ("quit", closes); ("wq", closes); ("x", closes);
      ("theme", theme);
      ("colorscheme", theme); ("colo", theme);
      ("top", scrolls page_top); ("0", scrolls page_top);
      ("$", scrolls page_bottom); ("bottom", scrolls page_bottom);
      ("contact", shows "terminal");
      ("skills", shows "coverage");
      ("resume", fun _ =>
         {| effects := [Download "/Mishat_Hassan_Resume.pdf" "Mishat_Hassan_Resume.pdf"];
            message := Some "Downloading resume..." |});
      ("verification", shows "verification");
      ("trace", shows "trace") ].

(** [COMMANDS[cmd]] *)
Inductive Member : Type :=
| Own (handler : CommandHandler)
| ObjectConstructor        (* COMMANDS["constructor"], the function Object *)
| ObjectPrototype.         (* COMMANDS["__proto__"], not a function *)

Definition lookup (cmd : string) : option Member :=
  match COMMANDS !! cmd with
  | Some h => Some (Own h)
  | None =>
      if String.eqb cmd "constructor" then Some ObjectConstructor
      else if String.eqb cmd "__proto__" then Some ObjectPrototype
      else None
  end.

Record State : Type := mkState { input : string; output : option string }.

(** The handler returns, or the call [handler(...)] throws a TypeError
    and the state is left as it was. *)
Inductive Result : Type :=
| Returns (s : State) (effs : list Effect)
| Throws.

(** The submit handler, [e.preventDefault()] left out as in the terminal. *)
Definition handleSubmit (s : State) : Result :=
  let trimmed := JS.trim (input s) in
  if String.eqb trimmed "" then Returns s [Close]
  else
    let parts := JS.split_ws trimmed in
    let cmd := JS.toLowerCase (hd EmptyString parts) in
    let args := tail parts in
    match lookup cmd with
    | Some (Own handler) =>
        let o := handler args in
        Returns {| input := "";
                   output := match message o with
                             | Some m => Some m
                             | None => output s
                             end |}
                (effects o)
    | Some ObjectConstructor => Returns {| input := ""; output := output s |} []
    | Some ObjectPrototype => Throws
    | None =>
        Returns {| input := "";
                   output := Some ("E492: Not a command: " +:+ cmd) |} []
    end.

End VimCommandPalette.

(** ** Further parts of the application *)

(** [Math.round(x)]: the nearest integer, a tie going up. *)
Definition Math_round (x : Q) : Z := Qfloor (x + (1 # 2)).

(** *** Keyboard navigation (index.tsx, [handleKeyDown]) *)

Module VimNavigation.

(** What the handler reads from the event. *)
Record KeyboardEvent : Type := mkKey {
  key : string;
  tagName : string;          (* (e.target as HTMLElement).tagName *)
  metaKey : bool;
  ctrlKey : bool;
  altKey : bool
}.

(** The two variables of the effect's closure. *)
Record State : Type := mkState { lastKeyTime : Z; gCount : Z }.

(** [let lastKeyTime = 0; let gCount = 0;] *)
Definition initial : State := {| lastKeyTime := 0; gCount := 0 |}.

Inductive Scroll : Type :=
| ScrollBy (top : Z)       (* window.scrollBy({ top, behavior: 'smooth' }) *)
| ScrollToBottom           (* window.scrollTo({ top: document.body.scrollHeight, ... }) *)
| ScrollToTop.             (* window.scrollTo({ top: 0, ... }) *)

(** [handleKeyDown(e)], [now] being the value of [Date.now()]. *)
Definition handleKeyDown (e : KeyboardEvent) (now : Z) (st : State)
  : State * list Scroll :=
  if String.eqb (tagName e) "INPUT" || String.eqb (tagName e) "TEXTAREA"
  then (st, [])
  else if metaKey e || ctrlKey e || altKey e then (st, [])
  else if String.eqb (key e) "j" then (st, [ScrollBy 300])
  else if String.eqb (key e) "k" then (st, [ScrollBy (-300)])
  else if String.eqb (key e) "G" then (st, [ScrollToBottom])
  else if String.eqb (key e) "g" then
    let gCount' :=
      if (now - lastKeyTime st <? 500)%Z then (gCount st + 1)%Z else 1%Z in
    if (gCount' =? 2)%Z
    then ({| lastKeyTime := now; gCount := 0 |}, [ScrollToTop])
    else ({| lastKeyTime := now; gCount := gCount' |}, [])
  else (st, []).

(** The keys of a session, each with the time it is pressed at. *)
Definition run (keys : list (KeyboardEvent * Z)) (st : State)
  : State * list Scroll :=
  foldl (fun acc k =>
           let r := handleKeyDown k.1 k.2 acc.1 in (r.1, acc.2 ++ r.2))
        (st, []) keys.

End VimNavigation.

(** *** The theme effect (index.tsx) *)

Module ThemeEffect.

(** [document.body.classList], as the set of its tokens. *)
Definition effect (theme : Theme) (classList : gset string) : gset string :=
  let removed := classList ∖ {[ "theme-silicon" ]} ∖ {[ "theme-light" ]} in
  match theme with
  | theme_silicon => {[ "theme-silicon" ]} ∪ removed
  | theme_light => {[ "theme-light" ]} ∪ removed
  | theme_default => removed
  end.

End ThemeEffect.

(** *** The coverage bins of a skill node (SkillNode.tsx) *)

Module SkillNodeBins.

Definition bins : nat := 16.

(** [Math.floor((level / 100) * bins)] *)
Definition filledBins (level : Q) : Z :=
  JS.floor ((level / 100) * inject_Z (Z.of_nat bins)).

(** [Array.from({ length: bins }).map((_, i) => i < filledBins)]: which
    of the cells are drawn filled. *)
Definition cells (level : Q) : list bool :=
  map (fun i => (Z.of_nat i <? filledBins level)%Z) (seq 0 bins).

End SkillNodeBins.

(** *** The career data (traceData.ts) *)

Module TraceData.

Record Entry : Type := mkEntry {
  id : Z;
  start : Q;
  end_ : Q;
  title : string;
  company : string;
  school : string;
  degree : string;
  description : string;
  type : string;
  stateCode : string
}.

Definition TRACE_DATA : list Entry :=
  [ {| id := 0; start := 202541 # 100; end_ := 2026;
       title := "Senior Design Verification Engineer";
       company := "Marvell Technology"; school := ""; degree := "";
       description := "Leading advanced verification strategies for next-generation silicon. Specializing in AI Network Control and COMPHY (SerDes). Architecting reusable UVM components and overseeing block-level regression sign-off.";
       type := "WORK"; stateCode := "4'h3" |};
    {| id := 1; start := 20235 # 10; end_ := 202542 # 100;
       title := "Design Verification Engineer";
       company := "Marvell Technology"; school := ""; degree := "";
       description := "Designed and implemented comprehensive testbenches for SoC blocks including Ethernet controllers. Achieved 100% code and functional coverage on critical IP. Collaborated with design teams to debug complex logic failures.";
       type := "WORK"; stateCode := "4'h2" |};
    {| id := 2; start := 202275 # 100; end_ := 202325 # 100;
       title := "Design Verification Engineer Intern";
       company := "Marvell Technology"; school := ""; degree := "";
       description := "Contributed to the validation of high-speed I/O subsystems. Developed Python scripts to automate regression analysis and improve simulation efficiency.";
       type := "INTERN"; stateCode := "4'h1" |};
    {| id := 3; start := 201775 # 100; end_ := 202333 # 100;
       title := "Engineering Student";
       company := ""; school := "Memorial University of Newfoundland";
       degree := "B.Eng. Electrical Engineering";
       description := "Specialized in Digital Systems and Integrated Circuits. Capstone project focused on FPGA-based hardware acceleration.";
       type := "EDU"; stateCode := "4'h0" |} ].

End TraceData.

(** *** The waveform view (WaveformViewer.tsx) *)

Module WaveformViewer.

Definition MONTH_NAMES : list string :=
  ["Jan"; "Feb"; "Mar"; "April"; "May"; "June"; "July"; "Aug"; "Sept"; "Oct";
   "Nov"; "Dec"].

(** [`${MONTH_NAMES[i]}`]: the text [undefined] outside of the array. *)
Definition month_text (i : Z) : string :=
  match JS.index MONTH_NAMES i with
  | Some m => m
  | None => "undefined"
  end.

Definition safeMonthIndex (decimalYear : Q) : Z :=
  let year := JS.floor decimalYear in
  let monthDecimal := ((decimalYear - inject_Z year) * 12)%Q in
  let monthIndex := (Math_round monthDecimal - 1)%Z in
  Z.max 0 (Z.min 11 (if (monthIndex <? 0)%Z then 0 else monthIndex)).

(** [`${n}`] for a number [n] that holds an integer. JavaScript prints
    the decimal digits of an integer of at most 2^53 - 1 in absolute
    value; a larger one it prints with rounded digits or with an
    exponent, which the embedding does not follow: there is no text for
    it ([None]). *)
Definition integerToString (n : Z) : option string :=
  if (Z.abs n <=? 9007199254740991)%Z then Some (pretty n) else None.

(** [formatDecimalYear(decimalYear)]; the cursor, its only argument,
    holds a time from 2017 to 2026. *)
Definition formatDecimalYear (decimalYear : Q) : option string :=
  (fun year => month_text (safeMonthIndex decimalYear) +:+ " " +:+ year)
  <$> integerToString (JS.floor decimalYear).

Definition startYear : Q := 2017.
Definition endYear : Q := 2026.
Definition duration : Q := endYear - startYear.

(** [Math.max(0, Math.min(1, x / width))]; [None] stands for NaN, the value
    of 0 / 0. A division of another [x] by a [width] of 0 gives an
    infinity, which the two bounds turn into 1 or 0. *)
Definition pct (x width : Q) : option Q :=
  if Qeq_bool width 0 then
    if Qlt_le_dec 0 x then Some 1%Q
    else if Qlt_le_dec x 0 then Some 0%Q
    else None
  else Some (Qmax 0 (Qmin 1 (x / width))).

(** [handleMouseMove(e)]: the cursor time it sets, if it sets one;
    [container] is the bounding rectangle of [containerRef.current]. *)
Definition handleMouseMove (container : option DOMRect.t) (clientX : Q)
  : option (option Q) :=
  match container with
  | None => None
  | Some rect =>
      let x := (clientX - DOMRect.left rect)%Q in
      Some ((fun p => startYear + p * duration)%Q <$> pct x (DOMRect.width rect))
  end.

(** [TRACE_DATA.find(d => cursorTime >= d.start && cursorTime < d.end)
    || TRACE_DATA[0]] *)
Definition activeData (cursorTime : Q) : option TraceData.Entry :=
  match List.find
          (fun d => Qle_bool (TraceData.start d) cursorTime
                    && negb (Qle_bool (TraceData.end_ d) cursorTime))
          TraceData.TRACE_DATA with
  | Some d => Some d
  | None => TraceData.TRACE_DATA !! 0%nat
  end.

(** [s.substring(0, 16) + (s.length > 16 ? "..." : "")], the value a bus
    row of the side bar shows. *)
Definition bus_value (s : string) : string :=
  substring 0 16 s +:+ (if (16 <? String.length s)%nat then "..." else "").

End WaveformViewer.

(** *** The boot log (BootSequence.tsx) *)

Module BootSequence.

Definition bootLog : list string :=
  [ "BIOS_REV 4.09.23 // CHECKING PERIPHERALS...";
    "DETECTED: CPU [ARM Cortex-A78]";
    "DETECTED: GPU [Mali-G710]";
    "LOADING MEMORY MAP... 0xFFFF_FFFF OK";
    "INITIALIZING UVM PHASES...";
    " > build_phase... DONE";
    " > connect_phase... DONE";
    " > elaboration_phase... DONE";
    "STARTING SIMULATION...";
    "LOADING PORTFOLIO V2.0..." ].

(** The loop of the effect: the delay each line is given to
    [setTimeout], [rnd i] being the draw of the [i]-th round. *)
Fixpoint schedule (lines : list string) (index : nat) (delay : Q)
    (rnd : nat -> Q) : list (Q * string) :=
  match lines with
  | [] => []
  | line :: lines' =>
      let delay' := (delay + (rnd index * 300 + 100))%Q in
      (delay', line) :: schedule lines' (S index) delay' rnd
  end.

Definition boot (rnd : nat -> Q) : list (Q * string) :=
  schedule bootLog 0 0 rnd.

(** The delay [onComplete] is given once the last line is shown. *)
Definition completion_delay : Q := 800.

End BootSequence.

(** *** The gutter (VimGutter.tsx) *)

Module VimGutter.

Definition totalLines : Z := 100.
Definition windowSize : Z := 25.

(** The callback of the scroll event: [Math.floor(latest * totalLines)]. *)
Definition currentLine_of (latest : Q) : Z :=
  JS.floor (latest * inject_Z totalLines).

Record Row : Type := mkRow {
  lineNum : Z;          (* the key of the row *)
  label : Z;            (* the number it shows *)
  current : bool        (* drawn as the current line *)
}.

(** The rows of one render; [None] where the callback returns null. *)
Definition rows (currentLine : Z) : list (option Row) :=
  let startLine := Z.max 0 (currentLine - windowSize) in
  map (fun i =>
         let lineNum := (startLine + Z.of_nat i)%Z in
         let relativeNum := Z.abs (lineNum - currentLine) in
         if (lineNum <? 0)%Z || (totalLines <? lineNum)%Z then None
         else Some {| lineNum := lineNum;
                      label := if (relativeNum =? 0)%Z then currentLine
                               else relativeNum;
                      current := (relativeNum =? 0)%Z |})
      (seq 0 (Z.to_nat (windowSize * 2))).

End VimGutter.

(** *** The scrambled title (CyberText.tsx) *)

Module CyberText.

Definition chars : string := "X01".

(** [s[i]] *)
Definition charAt (s : string) (i : nat) : option ascii := String.get i s.

(** The callback of [map] joined again: the code units of [prev] from
    [index] on, each replaced by [text[index]] when [index < iterations]
    and by a drawn one of [chars] otherwise; an undefined one joins as
    the empty text. [rnd index] is the draw for the position. *)
Fixpoint scramble_from (text : string) (iterations : Q) (rnd : nat -> Q)
    (index : nat) (prev : string) : string :=
  match prev with
  | EmptyString => EmptyString
  | String _ prev' =>
      let letter :=
        if Qlt_le_dec (inject_Z (Z.of_nat index)) iterations
        then charAt text index
        else match JS.floor (rnd index * inject_Z (Z.of_nat (String.length chars))) with
             | Z0 => charAt chars 0
             | Zpos p => charAt chars (Pos.to_nat p)
             | Zneg _ => None
             end in
      match letter with
      | Some c => String c (scramble_from text iterations rnd (S index) prev')
      | None => scramble_from text iterations rnd (S index) prev'
      end
  end.

(** The state of one [scramble] call: the text shown, the counter of the
    closure, and whether the interval has been cleared. *)
Record State : Type := mkState {
  displayText : string;
  iterations : Q;
  cleared : bool
}.

(** One run of the interval's callback, [rnd] giving its draws. React
    calls the function passed to [setDisplayText] at once or when it
    next renders the component, when the callback has returned and the
    counter has been advanced; [seen] is the value of the counter the
    function reads. *)
Definition tick (text : string) (rnd : nat -> Q) (seen : Q) (st : State)
  : State :=
  {| displayText := scramble_from text seen rnd 0 (displayText st);
     cleared :=
       if Qlt_le_dec (iterations st) (inject_Z (Z.of_nat (String.length text)))
       then cleared st else true;
     iterations := iterations st + (1 # 8) |}.

(** The callback runs every 50 ms until the interval is cleared; [rnds n]
    gives the draws of the [n]-th run and [seen n] the counter its
    function reads. *)
Fixpoint run (text : string) (rnds : nat -> nat -> Q) (seen : nat -> Q)
    (n : nat) (st : State) : State :=
  match n with
  | O => st
  | S n' =>
      let st' := run text rnds seen n' st in
      if cleared st' then st' else tick text (rnds n') (seen n') st'
  end.

(** [scramble()] starts from the text shown with the counter at 0. *)
Definition start (shown : string) : State :=
  {| displayText := shown; iterations := 0; cleared := false |}.

End CyberText.

(** ** Vocabulary of the properties *)

(** *** Registration order *)

(** The handles of a sequence of registrations, each kept where it was
    first registered. *)
Fixpoint first_occurrences (refs : list Handle) : list Handle :=
  match refs with
  | [] => []
  | r :: refs' => r :: filter (fun r' => r' ≠ r) (first_occurrences refs')
  end.

(** Registering a sequence of handles, in order, in one category. *)
Definition register_all (type : Category) (refs : list Handle)
    (t : TargetRegistry) : TargetRegistry :=
  foldl (fun t' r => registerTarget type r t') t refs.

(** *** White space, words and tokens *)

(** All code units are white space. *)
Fixpoint all_white (s : string) : bool :=
  match s with
  | EmptyString => true
  | String c s' => JS.isWhiteSpace c && all_white s'
  end.

(** No code unit is white space. *)
Fixpoint no_white (s : string) : bool :=
  match s with
  | EmptyString => true
  | String c s' => negb (JS.isWhiteSpace c) && no_white s'
  end.

(** A word: at least one code unit, none of them white space. *)
Definition is_word (w : string) : Prop := w ≠ EmptyString /\ no_white w = true.

(** A separator: at least one code unit, all of them white space. *)
Definition is_separator (sep : string) : Prop :=
  sep ≠ EmptyString /\ all_white sep = true.

(** A word followed by further words, each after a separator. *)
Fixpoint sentence (w : string) (rest : list (string * string)) : string :=
  match rest with
  | [] => w
  | (sep, w') :: rest' => w +:+ sep +:+ sentence w' rest'
  end.

Definition well_spaced (w : string) (rest : list (string * string)) : Prop :=
  is_word w /\ Forall (fun p => is_separator p.1 /\ is_word p.2) rest.

(** The tokens of an input line: [input.trim().split(/\s+/)]. *)
Definition tokens (input : string) : list string := JS.split_ws (JS.trim input).

(** The command and its first argument, as [handleCommand] reads them. *)
Definition command_of (input : string) : string :=
  JS.toLowerCase (hd EmptyString (tokens input)).

Definition argument_of (n : nat) (input : string) : option string :=
  JS.toLowerCase <$> tokens input !! n.

(** What the user is answered: the last line of the history, and the
    effects. *)
Definition terminal_answer (r : Terminal.State * list Terminal.Effect)
  : option Terminal.Line * list Terminal.Effect :=
  (last (Terminal.history r.1), r.2).

(** *** Runs of the dispatcher *)

(** Running the callbacks of the timers that are due. *)
Definition fire (due : list (nat * AppContent.TimerAction))
    (s : AppContent.AppState) : AppContent.AppState :=
  foldl (fun st tm => AppContent.run_timer tm.2 st) s due.

(** Does the event call [hitTarget] with this identifier? *)
Definition is_hit (id : string) (e : AppContent.Event) : bool :=
  match e with
  | AppContent.Hit id' => String.eqb id' id
  | _ => false
  end.

(** No [hitTarget] call with this identifier before more than [n]
    milliseconds have passed. *)
Fixpoint no_hit_within (id : string) (n : nat) (evs : list AppContent.Event)
  : bool :=
  match evs with
  | [] => true
  | AppContent.Tick :: evs' =>
      match n with
      | O => true
      | S n' => no_hit_within id n' evs'
      end
  | e :: evs' => negb (is_hit id e) && no_hit_within id n evs'
  end.

(** Does the event emit a signal that gets this identifier? *)
Definition is_emit (id : string) (e : AppContent.Event) : bool :=
  match e with
  | AppContent.Emit _ _ rnd36 => String.eqb (JS.substr 2 9 rnd36) id
  | _ => false
  end.

(** The removal that a [hitTarget(id)] call sets for the time [T] is
    pending, or the clock has reached [T] and the identifier is gone. *)
Definition hit_expiring (id : string) (T : nat) (st : AppContent.AppState)
  : Prop :=
  ((AppContent.now st < T)%nat
   /\ (T, AppContent.RemoveHit id) ∈ AppContent.timers st)
  \/ ((T <= AppContent.now st)%nat /\ id ∉ AppContent.activeHits st).

(** No removal for the identifier is due within 500 ms of the call made
    at [t0], and until then the identifier is in the hit state. *)
Definition hit_lasting (id : string) (t0 : nat) (st : AppContent.AppState)
  : Prop :=
  (t0 <= AppContent.now st)%nat
  /\ (forall d, (d, AppContent.RemoveHit id) ∈ AppContent.timers st ->
                (t0 + 500 <= d)%nat)
  /\ ((AppContent.now st < t0 + 500)%nat -> id ∈ AppContent.activeHits st).

(** The same two properties for the removal of a signal. *)
Definition signal_expiring (id : string) (T : nat) (st : AppContent.AppState)
  : Prop :=
  ((AppContent.now st < T)%nat
   /\ (T, AppContent.RemoveSignal id) ∈ AppContent.timers st)
  \/ ((T <= AppContent.now st)%nat
      /\ forall sg, sg ∈ AppContent.signals st -> SignalContext.id sg ≠ id).

Definition signal_lasting (sg0 : SignalContext.SignalType) (t0 : nat)
    (st : AppContent.AppState) : Prop :=
  (t0 <= AppContent.now st)%nat
  /\ (forall d,
        (d, AppContent.RemoveSignal (SignalContext.id sg0)) ∈ AppContent.timers st ->
        (t0 + 2500 <= d)%nat)
  /\ ((AppContent.now st < t0 + 2500)%nat -> sg0 ∈ AppContent.signals st).

(** *** Reachable states of the dispatcher *)

(** Does the event call [emitSignal]? *)
Definition is_emission (e : AppContent.Event) : bool :=
  match e with
  | AppContent.Emit _ _ _ => true
  | _ => false
  end.

(** Does the event call [hitTarget]? *)
Definition is_hit_call (e : AppContent.Event) : bool :=
  match e with
  | AppContent.Hit _ => true
  | _ => false
  end.

(** Every pending timer is due later than now, a removal of a signal by
    the time [Ts] and a removal of a highlight by the time [Th] at the
    latest; every signal and every highlight has a removal pending. *)
Definition removals_pending (Ts Th : nat) (st : AppContent.AppState) : Prop :=
  (forall tm, tm ∈ AppContent.timers st -> (AppContent.now st < tm.1)%nat)
  /\ (forall d id, (d, AppContent.RemoveSignal id) ∈ AppContent.timers st ->
                   (d <= Ts)%nat)
  /\ (forall d id, (d, AppContent.RemoveHit id) ∈ AppContent.timers st ->
                   (d <= Th)%nat)
  /\ (forall sg, sg ∈ AppContent.signals st ->
        exists d, (d, AppContent.RemoveSignal (SignalContext.id sg))
                  ∈ AppContent.timers st)
  /\ (forall id, id ∈ AppContent.activeHits st ->
        exists d, (d, AppContent.RemoveHit id) ∈ AppContent.timers st).

(** Registering, in order, in a registry. *)
Definition register_each (regs : list (Category * Handle)) (t : TargetRegistry)
  : TargetRegistry :=
  foldl (fun t' r => registerTarget r.1 r.2 t') t regs.

(** *** The document after scrolling *)

(** Scrolling by [dx] and [dy] adds them to the scroll offsets and moves
    every bounding rectangle, which is relative to the viewport, the
    other way. *)
Definition scrolled (d : SignalPacket.Document) (dx dy : Q)
  : SignalPacket.Document :=
  {| SignalPacket.scrollX := SignalPacket.scrollX d + dx;
     SignalPacket.scrollY := SignalPacket.scrollY d + dy;
     SignalPacket.current := fun ref =>
       (fun rect =>
          DOMRect.mk (DOMRect.left rect - dx) (DOMRect.top rect - dy)
                     (DOMRect.width rect) (DOMRect.height rect))
       <$> SignalPacket.current d ref |}.

(** The centre of a rectangle in document coordinates. *)
Definition centre (d : SignalPacket.Document) (rect : DOMRect.t)
  : SignalPacket.Point :=
  {| SignalPacket.x := DOMRect.left rect + DOMRect.width rect / 2
                       + SignalPacket.scrollX d;
     SignalPacket.y := DOMRect.top rect + DOMRect.height rect / 2
                       + SignalPacket.scrollY d |}.

(** *** Keys *)

(** A [g] pressed outside of a text field and without a modifier. *)
Definition plain_g (e : VimNavigation.KeyboardEvent) : bool :=
  String.eqb (VimNavigation.key e) "g"
  && negb (String.eqb (VimNavigation.tagName e) "INPUT"
           || String.eqb (VimNavigation.tagName e) "TEXTAREA")
  && negb (VimNavigation.metaKey e || VimNavigation.ctrlKey e
           || VimNavigation.altKey e).

(** *** Texts *)

(** The code unit is one of [X], [0] and [1]. *)
Definition scramble_char (c : ascii) : bool :=
  Ascii.eqb c "X" || Ascii.eqb c "0" || Ascii.eqb c "1".

(** * Properties *)

(** ** Host primitives *)

Lemma filter_all_elem {A : Type} (P : A -> Prop) `{!forall x, Decision (P x)}
    (l : list A) :
  (forall x, x ∈ l -> P x) -> filter P l = l.
Proof.
  induction l as [|x l IH]; intros HP; [done|].
  rewrite filter_cons_True by (apply HP; left).
  rewrite IH; [done|]. intros y Hy. apply HP. by right.
Qed.

Lemma includes_spec (xs : list nat) (x : nat) :
  JS.includes xs x = true <-> x ∈ xs.
Proof.
  unfold JS.includes. rewrite existsb_exists. split.
  - intros (y & Hy & Heq). apply Nat.eqb_eq in Heq. subst.
    by apply list_elem_of_In.
  - intros Hx. exists x. split; [by apply list_elem_of_In | apply Nat.eqb_refl].
Qed.

Lemma includes_false (xs : list nat) (x : nat) :
  JS.includes xs x = false <-> x ∉ xs.
Proof.
  rewrite <- includes_spec. destruct (JS.includes xs x); split; congruence.
Qed.

Lemma indexOf_Some (xs : list nat) (x i : nat) :
  JS.indexOf xs x = Some i ->
  xs !! i = Some x /\ forall j, (j < i)%nat -> xs !! j ≠ Some x.
Proof.
  revert i. induction xs as [|y ys IH]; intros i; simpl; [done|].
  destruct (Nat.eqb_spec y x) as [->|Hne].
  - intros [= <-]. split; [done|]. intros j Hj. lia.
  - destruct (JS.indexOf ys x) as [k|] eqn:Hk; simpl; [|done].
    intros [= <-]. destruct (IH k eq_refl) as [Hat Hfirst]. split; [done|].
    intros [|j] Hj; simpl; [congruence|]. apply Hfirst. lia.
Qed.

Lemma indexOf_None (xs : list nat) (x : nat) :
  JS.indexOf xs x = None <-> x ∉ xs.
Proof.
  induction xs as [|y ys IH]; simpl.
  - split; [intros _; apply not_elem_of_nil | done].
  - rewrite not_elem_of_cons. destruct (Nat.eqb_spec y x) as [->|Hne].
    + split; [done | intros [? _]; done].
    + destruct (JS.indexOf ys x) eqn:Hk; simpl.
      * split; [done|]. intros [_ Hin]. apply IH in Hin. done.
      * split; [|done]. intros _. split; [congruence | by apply IH].
Qed.


Lemma indexOf_app_l (xs ys : list nat) (x i : nat) :
  JS.indexOf xs x = Some i -> JS.indexOf (xs ++ ys) x = Some i.
Proof.
  revert i. induction xs as [|y xs IH]; intros i; simpl; [done|].
  destruct (y =? x)%nat; [done|].
  destruct (JS.indexOf xs x) as [k|]; simpl; [|done].
  intros [= <-]. by rewrite (IH k eq_refl).
Qed.

(** ** The target registry *)



Lemma registerTarget_present type ref t :
  ref ∈ category_of t type -> registerTarget type ref t = t.
Proof.
  intros Hin. unfold registerTarget.
  apply includes_spec in Hin. by rewrite Hin.
Qed.

Lemma registerTarget_absent type ref t :
  ref ∉ category_of t type ->
  category_of (registerTarget type ref t) type = category_of t type ++ [ref].
Proof.
  intros Hin. unfold registerTarget.
  apply includes_false in Hin. rewrite Hin. by destruct type.
Qed.

Lemma registerTarget_elem type ref t :
  ref ∈ category_of (registerTarget type ref t) type.
Proof.
  destruct (decide (ref ∈ category_of t type)) as [Hin|Hin].
  - by rewrite registerTarget_present.
  - rewrite registerTarget_absent by done. set_solver.
Qed.

Lemma registerTarget_other type type' ref t :
  type ≠ type' ->
  category_of (registerTarget type ref t) type' = category_of t type'.
Proof.
  intros Hne. unfold registerTarget.
  destruct (negb _); [|done]. by destruct type, type'.
Qed.

Lemma registerTarget_NoDup type type' ref t :
  NoDup (category_of t type') ->
  NoDup (category_of (registerTarget type ref t) type').
Proof.
  intros Hnd. destruct (decide (type = type')) as [<-|Hne].
  - destruct (decide (ref ∈ category_of t type)) as [Hin|Hin].
    + by rewrite registerTarget_present.
    + rewrite registerTarget_absent by done.
      apply NoDup_app. split_and!; [done | | apply NoDup_singleton].
      intros x Hx Hx'. apply list_elem_of_singleton in Hx'. by subst.
  - by rewrite registerTarget_other.
Qed.

Lemma first_occurrences_filter (P : Handle -> Prop) `{!forall x, Decision (P x)}
    (refs : list Handle) :
  first_occurrences (filter P refs) = filter P (first_occurrences refs).
Proof.
  induction refs as [|r refs IH]; [done|]. simpl.
  rewrite filter_cons. destruct (decide (P r)) as [HP|HP]; simpl.
  - rewrite filter_cons_True by done. f_equal. rewrite IH.
    rewrite !list_filter_filter. apply list_filter_iff. tauto.
  - rewrite filter_cons_False by done. rewrite IH.
    rewrite list_filter_filter. apply list_filter_iff.
    intros x. split; [|tauto]. intros HPx. split; [done|]. by intros ->.
Qed.

Lemma register_all_category type refs t :
  category_of (register_all type refs t) type
  = category_of t type
      ++ first_occurrences (filter (fun r => r ∉ category_of t type) refs).
Proof.
  revert t. induction refs as [|r refs IH]; intros t; simpl.
  - by rewrite app_nil_r.
  - unfold register_all in *. simpl. rewrite IH.
    destruct (decide (r ∈ category_of t type)) as [Hin|Hin].
    + rewrite registerTarget_present by done.
      rewrite filter_cons_False; [done|]. by intros ?.
    + rewrite registerTarget_absent by done.
      rewrite filter_cons_True by done. simpl.
      rewrite <- app_assoc. simpl. do 2 f_equal.
      rewrite <- first_occurrences_filter. f_equal.
      rewrite list_filter_filter. apply list_filter_iff.
      intros x. rewrite not_elem_of_app, list_elem_of_singleton. tauto.
Qed.

Lemma register_all_empty type refs :
  category_of (register_all type refs empty_registry) type
  = first_occurrences refs.
Proof.
  rewrite register_all_category.
  replace (category_of empty_registry type) with (@nil Handle)
    by (by destruct type).
  simpl. f_equal. apply filter_all_elem. intros x _. apply not_elem_of_nil.
Qed.



(** C2. Calling [registerTarget] twice with the same handle in the same
    category leaves the registry as calling it once does: a handle that is
    present is not added again, a handle that is absent is appended at the
    end, the second call leaves the length as it is, and registering a
    sequence of handles into an empty registry yields the handles in the
    order in which they were first registered. *)
Theorem registerTarget_idempotent (type : Category) (ref : Handle)
    (t : TargetRegistry) :
  registerTarget type ref (registerTarget type ref t) = registerTarget type ref t
  /\ (JS.includes (category_of t type) ref = true ->
      registerTarget type ref t = t)
  /\ (JS.includes (category_of t type) ref = false ->
      category_of (registerTarget type ref t) type = category_of t type ++ [ref])
  /\ length (category_of (registerTarget type ref (registerTarget type ref t)) type)
     = length (category_of (registerTarget type ref t) type)
  /\ (forall refs : list Handle,
      category_of (register_all type refs empty_registry) type
      = first_occurrences refs).
Proof.
  assert (Hidem : registerTarget type ref (registerTarget type ref t)
                  = registerTarget type ref t).
  { apply registerTarget_present, registerTarget_elem. }
  split_and!.
  - exact Hidem.
  - intros Hin. apply registerTarget_present. by apply includes_spec.
  - intros Hin. apply registerTarget_absent. by apply includes_false.
  - by rewrite Hidem.
  - intros refs.
    apply register_all_empty.
Qed.

Lemma registerTarget_idempotent_witness :
  let t := {| skills := [10; 11]; trace := [20] |} in
  JS.includes (category_of t cat_skills) 11 = true
  /\ registerTarget cat_skills 11 t = t
  /\ JS.includes (category_of t cat_trace) 11 = false
  /\ category_of (registerTarget cat_trace 11 t) cat_trace = [20; 11]%nat.
Proof.
  intros t.
  pose proof (registerTarget_idempotent cat_skills 11 t) as (_ & Hpresent & _).
  pose proof (registerTarget_idempotent cat_trace 11 t) as (_ & _ & Habsent & _).
  split; [reflexivity|]. split; [apply Hpresent; reflexivity|].
  split; [reflexivity|]. apply Habsent. reflexivity.
Defined.

(** ** The signal renderer *)

Lemma floor_of_draw (rnd : Q) (n : nat) :
  (0 <= rnd)%Q -> (rnd < 1)%Q -> (0 < n)%nat ->
  (0 <= JS.floor (rnd * inject_Z (Z.of_nat n)))%Z
  /\ (JS.floor (rnd * inject_Z (Z.of_nat n)) < Z.of_nat n)%Z.
Proof.
  intros Hlo Hhi Hn. unfold JS.floor.
  assert (Hpos : (0 < inject_Z (Z.of_nat n))%Q).
  { change 0%Q with (inject_Z 0). rewrite <- Zlt_Qlt. lia. }
  split.
  - change 0%Z with (Qfloor (inject_Z 0)).
    apply Qfloor_resp_le. change (inject_Z 0) with 0%Q.
    apply Qmult_le_0_compat; [done | by apply Qlt_le_weak].
  - rewrite Zlt_Qlt. eapply Qle_lt_trans; [apply Qfloor_le|].
    rewrite <- (Qmult_1_l (inject_Z (Z.of_nat n))) at 2.
    by apply Qmult_lt_compat_r.
Qed.

(** A draw in [0, 1) picks a handle at an index inside a category that is
    not empty. *)
Lemma pick_in_range (l : list Handle) (rnd : Q) :
  (0 <= rnd)%Q -> (rnd < 1)%Q -> l ≠ [] ->
  exists i h, (i < length l)%nat /\ l !! i = Some h
              /\ SignalPacket.pick l rnd = Some h.
Proof.
  intros Hlo Hhi Hne.
  assert (Hlen : (0 < length l)%nat) by (destruct l; [done | simpl; lia]).
  destruct (floor_of_draw rnd (length l) Hlo Hhi Hlen) as [H0 Hlt].
  unfold SignalPacket.pick, JS.index.
  set (k := JS.floor (rnd * inject_Z (Z.of_nat (length l)))) in *.
  destruct (Z.ltb_spec k 0) as [Hneg|_]; [lia|].
  assert (Hk : (Z.to_nat k < length l)%nat) by lia.
  destruct (lookup_lt_is_Some_2 l (Z.to_nat k) Hk) as [h Hh].
  by exists (Z.to_nat k), h.
Qed.

Lemma pick_empty (rnd : Q) : SignalPacket.pick [] rnd = None.
Proof.
  unfold SignalPacket.pick, JS.index. destruct (_ <? _)%Z; [done|].
  apply lookup_nil.
Qed.

(** C5. With three handles registered under skills and two under trace,
    the first render of an instance picks, for every pair of draws in
    [0, 1), a skills handle at an index below 3 and a trace handle at an
    index below 2, both registered; every later render of the instance,
    whatever the registry, the document and the draws are by then, keeps
    the two picks. *)
Theorem render_picks_registered (signal : SignalContext.SignalType)
    (targets : TargetRegistry) (d : SignalPacket.Document) (rnd1 rnd2 : Q) :
  length (skills targets) = 3%nat ->
  length (trace targets) = 2%nat ->
  (0 <= rnd1)%Q -> (rnd1 < 1)%Q -> (0 <= rnd2)%Q -> (rnd2 < 1)%Q ->
  let mounted := SignalPacket.render signal targets d rnd1 rnd2 SignalPacket.fresh in
  (0 <= JS.floor (rnd1 * 3) < 3)%Z
  /\ (0 <= JS.floor (rnd2 * 2) < 2)%Z
  /\ (exists i j hs ht,
        (i < 3)%nat /\ (j < 2)%nat
        /\ skills targets !! i = Some hs /\ trace targets !! j = Some ht
        /\ SignalPacket.skillTarget mounted.2 = Some hs
        /\ SignalPacket.traceTarget mounted.2 = Some ht)
  /\ (forall signal' targets' d' rnd1' rnd2',
        let later := SignalPacket.render signal' targets' d' rnd1' rnd2' mounted.1 in
        SignalPacket.skillTarget later.2 = SignalPacket.skillTarget mounted.2
        /\ SignalPacket.traceTarget later.2 = SignalPacket.traceTarget mounted.2
        /\ later.1 = mounted.1).
Proof.
  intros Hs Ht Hlo1 Hhi1 Hlo2 Hhi2 mounted. split_and!.
  - apply (floor_of_draw rnd1 3 Hlo1 Hhi1). lia.
  - apply (floor_of_draw rnd1 3 Hlo1 Hhi1). lia.
  - apply (floor_of_draw rnd2 2 Hlo2 Hhi2). lia.
  - apply (floor_of_draw rnd2 2 Hlo2 Hhi2). lia.
  - destruct (pick_in_range (skills targets) rnd1 Hlo1 Hhi1) as (i & hs & Hi & His & Hps).
    { intros E. by rewrite E in Hs. }
    destruct (pick_in_range (trace targets) rnd2 Hlo2 Hhi2) as (j & ht & Hj & Hjt & Hpt).
    { intros E. by rewrite E in Ht. }
    exists i, j, hs, ht. rewrite Hs in Hi. rewrite Ht in Hj.
    subst mounted. simpl. by rewrite Hps, Hpt.
  - intros signal' targets' d' rnd1' rnd2'. by subst mounted.
Qed.

Lemma render_picks_registered_witness :
  let targets := {| skills := [10; 11; 12]; trace := [20; 21] |} in
  let d := SignalPacket.mkDocument 0 0 (fun _ => None) in
  let mounted := SignalPacket.render (SignalContext.mkSignal "i" 110 110 "#00f3ff")
                 targets d (9 # 10) (1 # 2) SignalPacket.fresh in
  SignalPacket.skillTarget mounted.2 = Some 12%nat
  /\ SignalPacket.traceTarget mounted.2 = Some 21%nat
  /\ (0 <= JS.floor ((9 # 10) * 3) < 3)%Z
  /\ (0 <= JS.floor ((1 # 2) * 2) < 2)%Z
  /\ exists i j hs ht,
      (i < 3)%nat /\ (j < 2)%nat
      /\ skills targets !! i = Some hs /\ trace targets !! j = Some ht
      /\ SignalPacket.skillTarget mounted.2 = Some hs
      /\ SignalPacket.traceTarget mounted.2 = Some ht.
Proof.
  intros targets d mounted. split; [reflexivity|]. split; [reflexivity|].
  pose proof (render_picks_registered
                (SignalContext.mkSignal "i" 110 110 "#00f3ff")
                targets d (9 # 10) (1 # 2)) as Hpicks.
  destruct Hpicks as (Hi & Hj & Hin & _);
    first [reflexivity | (intros E; discriminate E) | idtac].
  split; [exact Hi|]. split; [exact Hj|]. exact Hin.
Defined.

(** C6. When the trace category is empty at the first render of an
    instance, or the trace handle the instance holds is undefined or
    cannot be resolved to a position, the endpoint stage has the x
    coordinate of the midpoint stage and its y coordinate plus 800, the
    last keyframe is that point, and the duration of the animation is
    5/2 = 2.5. *)
Theorem endpoint_fallback (signal : SignalContext.SignalType)
    (targets : TargetRegistry) (d : SignalPacket.Document) (rnd1 rnd2 : Q)
    (h : SignalPacket.Hooks) :
  let r := (SignalPacket.render signal targets d rnd1 rnd2 h).2 in
  (h = SignalPacket.fresh /\ trace targets = [])
  \/ SignalPacket.traceTarget r = None
  \/ (exists ref, SignalPacket.traceTarget r = Some ref
                  /\ SignalPacket.current d ref = None) ->
  SignalPacket.x (SignalPacket.safeEnd r) = SignalPacket.x (SignalPacket.safeMid r)
  /\ SignalPacket.y (SignalPacket.safeEnd r)
     = (SignalPacket.y (SignalPacket.safeMid r) + 800)%Q
  /\ last (SignalPacket.left (SignalPacket.animate r))
     = Some (SignalPacket.x (SignalPacket.safeEnd r))
  /\ last (SignalPacket.top (SignalPacket.animate r))
     = Some (SignalPacket.y (SignalPacket.safeEnd r))
  /\ SignalPacket.duration (SignalPacket.animate r) = 5 # 2.
Proof.
  intros r Hcase.
  assert (Hend : SignalPacket.getPos d (SignalPacket.traceTarget r)
                 = SignalPacket.mkPoint 0 0).
  { destruct Hcase as [[-> Hempty] | [Hnone | (ref & Hsome & Hcur)]].
    - subst r. simpl. rewrite Hempty. by rewrite pick_empty.
    - by rewrite Hnone.
    - rewrite Hsome. simpl. by rewrite Hcur. }
  subst r. simpl in *. rewrite Hend. simpl. done.
Qed.

Lemma endpoint_fallback_witness :
  let d := SignalPacket.mkDocument 0 40 (fun _ => Some (DOMRect.mk 300 500 80 60)) in
  let r := (SignalPacket.render (SignalContext.mkSignal "i" 110 110 "#00f3ff")
              {| skills := [10]; trace := [] |} d (1 # 2) (1 # 2)
              SignalPacket.fresh).2 in
  SignalPacket.traceTarget r = None
  /\ SignalPacket.y (SignalPacket.safeEnd r)
     = (SignalPacket.y (SignalPacket.safeMid r) + 800)%Q.
Proof.
  intros d r. split; [reflexivity|].
  apply (endpoint_fallback (SignalContext.mkSignal "i" 110 110 "#00f3ff")
           {| skills := [10]; trace := [] |} d (1 # 2) (1 # 2) SignalPacket.fresh).
  left. split; reflexivity.
Defined.

(** C9. The signal that [emitSignal] appends has the centre of the
    rectangle as its origin, [left + width / 2] and [top + height / 2];
    the scroll offsets are added only when the renderer computes its
    start point. The rectangle (100, 100, 20, 20) gives (110, 110), and
    a rectangle without width and height gives its own corner. *)
Theorem emitSignal_origin (rect : DOMRect.t) (color rnd36 : string)
    (s : AppContent.AppState) :
  (exists sg,
      AppContent.signals (AppContent.emitSignal rect color rnd36 s)
      = AppContent.signals s ++ [sg]
      /\ SignalContext.startX sg = (DOMRect.left rect + DOMRect.width rect / 2)%Q
      /\ SignalContext.startY sg = (DOMRect.top rect + DOMRect.height rect / 2)%Q
      /\ SignalContext.color sg = color
      /\ forall targets d rnd1 rnd2 h,
           SignalPacket.start (SignalPacket.render sg targets d rnd1 rnd2 h).2
           = SignalPacket.mkPoint
               (SignalContext.startX sg + SignalPacket.scrollX d)
               (SignalContext.startY sg + SignalPacket.scrollY d))
  /\ (exists sg,
        last (AppContent.signals
                (AppContent.emitSignal (DOMRect.mk 100 100 20 20) color rnd36 s))
        = Some sg
        /\ (SignalContext.startX sg == 110)%Q /\ (SignalContext.startY sg == 110)%Q)
  /\ (forall l t, exists sg,
        last (AppContent.signals
                (AppContent.emitSignal (DOMRect.mk l t 0 0) color rnd36 s))
        = Some sg
        /\ (SignalContext.startX sg == l)%Q /\ (SignalContext.startY sg == t)%Q).
Proof.
  split_and!.
  - eexists. split; [reflexivity|]. simpl. done.
  - eexists. simpl. rewrite last_snoc. split; [reflexivity|]. simpl.
    split; reflexivity.
  - intros l t. eexists. simpl. rewrite last_snoc. split; [reflexivity|].
    simpl. split; field.
Qed.

(** ** Hit identifiers *)






(** ** Strings: white space, words and tokens *)

#[local] Arguments String.append !_ _ / : simpl nomatch.







Lemma append_assoc' (a b c : string) : (a +:+ b) +:+ c = a +:+ b +:+ c.
Proof. induction a as [|x a IH]; cbn; [done | by f_equal]. Qed.

Lemma append_empty_r (a : string) : a +:+ EmptyString = a.
Proof. induction a as [|x a IH]; cbn; [done | by f_equal]. Qed.

Lemma trimStart_white (pre s : string) :
  all_white pre = true -> JS.trimStart (pre +:+ s) = JS.trimStart s.
Proof.
  induction pre as [|c pre IH]; simpl; [done|].
  intros [Hc Hpre]%andb_prop. rewrite Hc. auto.
Qed.

Lemma trimStart_all_white (s : string) :
  all_white s = true -> JS.trimStart s = EmptyString.
Proof.
  intros Hs. rewrite <- (append_empty_r s). by rewrite trimStart_white.
Qed.

Lemma trimEnd_white (s post : string) :
  all_white post = true -> JS.trimEnd (s +:+ post) = JS.trimEnd s.
Proof.
  intros Hpost.
  assert (Hbase : JS.trimEnd post = EmptyString).
  { induction post as [|c post IH]; simpl; [done|].
    simpl in Hpost. apply andb_prop in Hpost as [Hc Hp].
    by rewrite IH, Hc. }
  induction s as [|c s IH]; simpl; [done | by rewrite IH].
Qed.

Lemma trimEnd_no_white (w : string) : no_white w = true -> JS.trimEnd w = w.
Proof.
  induction w as [|c w IH]; simpl; [done|].
  intros [Hc Hw]%andb_prop. rewrite IH by done.
  destruct w; [|done]. by destruct (JS.isWhiteSpace c).
Qed.

Lemma trimEnd_word (s w : string) : is_word w -> JS.trimEnd (s +:+ w) = s +:+ w.
Proof.
  intros [Hne Hw]. induction s as [|c s IH]; simpl.
  - by apply trimEnd_no_white.
  - rewrite IH. destruct (s +:+ w) eqn:E; [|done].
    destruct s; simpl in E; [done | discriminate].
Qed.

Lemma trim_all_white (s : string) : all_white s = true -> JS.trim s = EmptyString.
Proof. intros Hs. unfold JS.trim. by rewrite trimStart_all_white. Qed.

Lemma sentence_ends_with_word w rest :
  well_spaced w rest ->
  exists s wl, sentence w rest = s +:+ wl /\ is_word wl.
Proof.
  revert w. induction rest as [|[sep w'] rest IH]; intros w [Hw Hrest].
  - exists EmptyString, w. done.
  - apply Forall_cons in Hrest as [[_ Hw'] Hrest].
    destruct (IH w' (conj Hw' Hrest)) as (s & wl & Hs & Hwl).
    exists (w +:+ sep +:+ s), wl. split; [|done]. simpl.
    by rewrite Hs, !append_assoc'.
Qed.

Lemma sentence_starts_with_word w rest :
  well_spaced w rest ->
  exists c s, sentence w rest = String c s /\ JS.isWhiteSpace c = false.
Proof.
  intros [[Hne Hw] _]. destruct w as [|c w]; [done|].
  simpl in Hw. apply andb_prop in Hw as [Hc _]. apply negb_true_iff in Hc.
  destruct rest as [|[sep w'] rest]; simpl; eauto.
Qed.

(** Trimming strips the white space around a sentence and nothing else. *)
Lemma trim_sentence (pre post w : string) rest :
  all_white pre = true -> all_white post = true -> well_spaced w rest ->
  JS.trim (pre +:+ sentence w rest +:+ post) = sentence w rest.
Proof.
  intros Hpre Hpost Hws. unfold JS.trim. rewrite trimStart_white by done.
  destruct (sentence_starts_with_word w rest Hws) as (c & s & Hs & Hc).
  destruct (sentence_ends_with_word w rest Hws) as (s' & wl & Hs' & Hwl).
  assert (Hts : JS.trimStart (sentence w rest +:+ post) = sentence w rest +:+ post).
  { rewrite Hs. simpl. by rewrite Hc. }
  rewrite Hts, trimEnd_white by done. rewrite Hs'. by apply trimEnd_word.
Qed.

Lemma splitWs_not_nil b s : JS.splitWs b s ≠ [].
Proof.
  revert b. induction s as [|c s IH]; intros b; simpl; [done|].
  destruct (JS.isWhiteSpace c).
  - destruct b; [apply IH | done].
  - destruct (JS.splitWs false s); done.
Qed.

Lemma splitWs_flag_irrelevant b c s :
  JS.isWhiteSpace c = false ->
  JS.splitWs b (String c s) = JS.splitWs false (String c s).
Proof. intros Hc. simpl. by rewrite Hc. Qed.

Lemma splitWs_word (w s : string) :
  no_white w = true ->
  JS.splitWs false (w +:+ s)
  = match JS.splitWs false s with
    | t :: ts => (w +:+ t) :: ts
    | [] => [w]
    end.
Proof.
  induction w as [|c w IH]; simpl.
  - intros _. pose proof (splitWs_not_nil false s).
    by destruct (JS.splitWs false s).
  - intros [Hc Hw]%andb_prop. apply negb_true_iff in Hc. rewrite Hc, IH by done.
    pose proof (splitWs_not_nil false s). by destruct (JS.splitWs false s).
Qed.

Lemma splitWs_separator_inside (sep : string) c s :
  all_white sep = true -> JS.isWhiteSpace c = false ->
  JS.splitWs true (sep +:+ String c s) = JS.splitWs false (String c s).
Proof.
  intros Hsep Hc. induction sep as [|x sep IH]; simpl.
  - by rewrite Hc.
  - simpl in Hsep. apply andb_prop in Hsep as [Hx Hsep]. rewrite Hx. auto.
Qed.

Lemma splitWs_separator (sep : string) c s :
  is_separator sep -> JS.isWhiteSpace c = false ->
  JS.splitWs false (sep +:+ String c s)
  = EmptyString :: JS.splitWs false (String c s).
Proof.
  intros [Hne Hsep] Hc. destruct sep as [|x sep]; [done|].
  simpl in Hsep. apply andb_prop in Hsep as [Hx Hsep].
  change (String x sep +:+ String c s) with (String x (sep +:+ String c s)).
  cbn [JS.splitWs]. rewrite Hx. f_equal. by apply splitWs_separator_inside.
Qed.

(** Splitting a sentence at white space gives back its words. *)
Lemma split_ws_sentence w rest :
  well_spaced w rest -> JS.split_ws (sentence w rest) = w :: map snd rest.
Proof.
  unfold JS.split_ws. revert w.
  induction rest as [|[sep w'] rest IH]; intros w [Hw Hrest].
  - simpl. rewrite <- (append_empty_r w) at 1.
    rewrite splitWs_word by apply Hw. simpl. by rewrite append_empty_r.
  - apply Forall_cons in Hrest as [[Hsep Hw'] Hrest]. simpl in Hsep, Hw'.
    assert (Hws' : well_spaced w' rest) by done.
    destruct (sentence_starts_with_word w' rest Hws') as (c & s & Hs & Hc).
    cbn [sentence map snd]. rewrite splitWs_word by apply Hw.
    rewrite Hs, splitWs_separator by done. rewrite <- Hs, IH by done.
    by rewrite append_empty_r.
Qed.


Lemma tokens_sentence (pre post w : string) rest :
  all_white pre = true -> all_white post = true -> well_spaced w rest ->
  tokens (pre +:+ sentence w rest +:+ post) = w :: map snd rest.
Proof.
  intros. unfold tokens. rewrite trim_sentence by done.
  by apply split_ws_sentence.
Qed.

Lemma trimStart_empty (s : string) :
  JS.trimStart s = EmptyString -> all_white s = true.
Proof.
  induction s as [|c s IH]; simpl; [done|].
  destruct (JS.isWhiteSpace c); [auto | done].
Qed.

Lemma trimEnd_empty (s : string) :
  JS.trimEnd s = EmptyString -> all_white s = true.
Proof.
  induction s as [|c s IH]; simpl; [done|].
  destruct (JS.trimEnd s); [|done].
  destruct (JS.isWhiteSpace c); [auto | done].
Qed.

Lemma trimStart_white_result (s : string) :
  all_white (JS.trimStart s) = true -> JS.trimStart s = EmptyString.
Proof.
  induction s as [|c s IH]; simpl; [done|].
  destruct (JS.isWhiteSpace c) eqn:Hc; [auto|]. simpl. by rewrite Hc.
Qed.

(** An input is blank for [trim] exactly when all of it is white space. *)
Lemma trim_empty_iff (s : string) :
  JS.trim s = EmptyString <-> all_white s = true.
Proof.
  split; [|apply trim_all_white].
  unfold JS.trim. intros H%trimEnd_empty%trimStart_white_result.
  by apply trimStart_empty.
Qed.

Lemma trim_eqb_false (s : string) :
  all_white s = false -> String.eqb (JS.trim s) EmptyString = false.
Proof.
  intros Hs. apply String.eqb_neq. intros H%trim_empty_iff. congruence.
Qed.

(** ** The terminal *)



Lemma last_reply s out :
  last (Terminal.history (Terminal.reply s out))
  = Some (Terminal.mkLine Terminal.output_line out).
Proof.
  unfold Terminal.reply. simpl.
  change [Terminal.mkLine Terminal.input_line (Terminal.Text (Terminal.input s));
          Terminal.mkLine Terminal.output_line out]
    with ([Terminal.mkLine Terminal.input_line (Terminal.Text (Terminal.input s))]
          ++ [Terminal.mkLine Terminal.output_line out]).
  by rewrite app_assoc, last_snoc.
Qed.

Lemma command_of_blank (input : string) :
  all_white input = true -> command_of input = EmptyString.
Proof.
  intros H. unfold command_of, tokens. by rewrite trim_all_white.
Qed.

Lemma command_not_blank (input cmd : string) :
  command_of input = cmd -> cmd ≠ EmptyString -> all_white input = false.
Proof.
  intros Hcmd Hne. destruct (all_white input) eqn:E; [|done].
  rewrite command_of_blank in Hcmd by done. congruence.
Qed.

(** [handleCommand] on an input that is not blank, with the command and
    the argument named. *)
Lemma handleCommand_unfold (p : Terminal.Props) (s : Terminal.State) :
  all_white (Terminal.input s) = false ->
  Terminal.handleCommand p s
  = let cmd := command_of (Terminal.input s) in
    let arg1 := argument_of 1 (Terminal.input s) in
    if String.eqb cmd "clear" then
      ({| Terminal.history := []; Terminal.input := "" |}, [])
    else if String.eqb cmd "theme" then
      if is_string arg1 "silicon" then
        (Terminal.reply s (Terminal.Text "SWITCHING TO RTL VIEW... GATE LEVEL PRIMITIVES EXPOSED."),
         Terminal.theme_effect p theme_silicon)
      else if is_string arg1 "dark" then
        (Terminal.reply s (Terminal.Text "REVERTING TO ABSTRACTION LAYER 0."),
         Terminal.theme_effect p theme_default)
      else if is_string arg1 "light" then
        (Terminal.reply s (Terminal.Text "ACTIVATING CLEAN ROOM PROTOCOLS... ILLUMINATION: 100%"),
         Terminal.theme_effect p theme_light)
      else
        (Terminal.reply s (Terminal.Text "Usage: theme [silicon | light | dark]"), [])
    else if String.eqb cmd "resume" then
      (Terminal.reply s (Terminal.Text "Initiating download sequence for Mishat_Hassan_Resume.txt..."),
       [Terminal.Download "Mishat_Hassan_Resume.txt"])
    else
      (Terminal.reply s
         (Terminal.or_else (Terminal.lookup cmd)
            ("bash: " +:+ cmd +:+ ": command not found")),
       []).
Proof.
  intros Hs. unfold Terminal.handleCommand.
  by rewrite trim_eqb_false.
Qed.

Lemma terminal_case_insensitive (p : Terminal.Props) (h : list Terminal.Line)
    (i1 i2 : string) :
  all_white i1 = false -> all_white i2 = false ->
  command_of i1 = command_of i2 ->
  argument_of 1 i1 = argument_of 1 i2 ->
  terminal_answer (Terminal.handleCommand p (Terminal.mkState h i1))
  = terminal_answer (Terminal.handleCommand p (Terminal.mkState h i2)).
Proof.
  intros H1 H2 Hcmd Harg.
  rewrite !handleCommand_unfold by done. cbv zeta. cbn [Terminal.input].
  rewrite Hcmd, Harg. unfold terminal_answer.
  repeat case_match; cbn [fst snd]; rewrite ?last_reply; done.
Qed.

Lemma is_string_true (a : option string) (v : string) :
  is_string a v = true <-> a = Some v.
Proof.
  destruct a as [x|]; simpl; [|done].
  rewrite String.eqb_eq. split; congruence.
Qed.

Lemma is_string_false (a : option string) (v : string) :
  a ≠ Some v -> is_string a v = false.
Proof.
  intros Hne. destruct (is_string a v) eqn:E; [|done].
  by apply is_string_true in E.
Qed.

(** The [theme] command of the terminal. *)
Lemma terminal_theme (p : Terminal.Props) (s : Terminal.State) :
  command_of (Terminal.input s) = "theme" ->
  let arg1 := argument_of 1 (Terminal.input s) in
  (arg1 = Some "silicon" ->
   Terminal.handleCommand p s
   = (Terminal.reply s (Terminal.Text "SWITCHING TO RTL VIEW... GATE LEVEL PRIMITIVES EXPOSED."),
      Terminal.theme_effect p theme_silicon))
  /\ (arg1 = Some "dark" ->
      Terminal.handleCommand p s
      = (Terminal.reply s (Terminal.Text "REVERTING TO ABSTRACTION LAYER 0."),
         Terminal.theme_effect p theme_default))
  /\ (arg1 = Some "light" ->
      Terminal.handleCommand p s
      = (Terminal.reply s (Terminal.Text "ACTIVATING CLEAN ROOM PROTOCOLS... ILLUMINATION: 100%"),
         Terminal.theme_effect p theme_light))
  /\ (arg1 ≠ Some "silicon" -> arg1 ≠ Some "dark" -> arg1 ≠ Some "light" ->
      Terminal.handleCommand p s
      = (Terminal.reply s (Terminal.Text "Usage: theme [silicon | light | dark]"), [])).
Proof.
  intros Hcmd arg1.
  assert (Hnb : all_white (Terminal.input s) = false).
  { by eapply command_not_blank. }
  rewrite handleCommand_unfold by done. simpl. rewrite Hcmd. simpl.
  fold arg1. split_and!.
  - by intros ->.
  - by intros ->.
  - by intros ->.
  - intros H1 H2 H3. by rewrite !is_string_false.
Qed.

(** A command that is neither built in nor in the table, nor the name of
    an inherited member, is answered "command not found". *)
Lemma terminal_unknown (p : Terminal.Props) (s : Terminal.State) :
  let cmd := command_of (Terminal.input s) in
  all_white (Terminal.input s) = false ->
  cmd ∉ ["clear"; "theme"; "resume"; "help"; "whoami"; "skills"; "contact";
         "run_test"; "constructor"; "__proto__"] ->
  Terminal.handleCommand p s
  = (Terminal.reply s (Terminal.Text ("bash: " +:+ cmd +:+ ": command not found")), []).
Proof.
  intros cmd Hnb Hcmd. rewrite handleCommand_unfold by done.
  fold cmd. cbv zeta.
  rewrite !not_elem_of_cons in Hcmd.
  destruct Hcmd as (H1 & H2 & H3 & H4 & H5 & H6 & H7 & H8 & H9 & H10 & _).
  rewrite !(proj2 (String.eqb_neq _ _)) by done.
  unfold Terminal.lookup, Terminal.COMMANDS.
  assert (Hlk : (list_to_map
     [("help", "Available commands: help, whoami, skills, contact, clear, run_test, resume, theme [silicon|light|dark]");
      ("whoami", "Mishat | Senior Design Verification Engineer @ Marvell Technology. Obsessed with zero bugs.");
      ("skills", "SystemVerilog, UVM, Python, Formal Verification, Verdi, DVE, C++");
      ("contact", "Email: mishath@mun.ca | LinkedIn: in/mishathassan");
      ("run_test", "Starting UVM Sequence...
Running test_soc_boot...
Wait for interrupt...
TEST PASSED (Coverage: 100%)")] : gmap string string) !! cmd = None).
  { apply not_elem_of_list_to_map_1. simpl.
    rewrite !not_elem_of_cons. split_and!; try done. apply not_elem_of_nil. }
  rewrite Hlk.
  rewrite !(proj2 (String.eqb_neq _ _)) by done. done.
Qed.

(** C10. A terminal submission whose input is empty or all white space
    returns at once: the state, history and input line included, is as
    it was, and there is no effect. *)
Theorem handleCommand_blank (p : Terminal.Props) (s : Terminal.State) :
  all_white (Terminal.input s) = true ->
  Terminal.handleCommand p s = (s, []).
Proof.
  intros Hs. unfold Terminal.handleCommand. by rewrite trim_all_white.
Qed.

(** ** The command palette *)

Lemma handleSubmit_unfold (s : VimCommandPalette.State) :
  all_white (VimCommandPalette.input s) = false ->
  VimCommandPalette.handleSubmit s
  = let cmd := command_of (VimCommandPalette.input s) in
    let args := tail (tokens (VimCommandPalette.input s)) in
    match VimCommandPalette.lookup cmd with
    | Some (VimCommandPalette.Own handler) =>
        let o := handler args in
        VimCommandPalette.Returns
          {| VimCommandPalette.input := "";
             VimCommandPalette.output :=
               match VimCommandPalette.message o with
               | Some m => Some m
               | None => VimCommandPalette.output s
               end |}
          (VimCommandPalette.effects o)
    | Some VimCommandPalette.ObjectConstructor =>
        VimCommandPalette.Returns
          {| VimCommandPalette.input := "";
             VimCommandPalette.output := VimCommandPalette.output s |} []
    | Some VimCommandPalette.ObjectPrototype => VimCommandPalette.Throws
    | None =>
        VimCommandPalette.Returns
          {| VimCommandPalette.input := "";
             VimCommandPalette.output := Some ("E492: Not a command: " +:+ cmd) |} []
    end.
Proof.
  intros Hs. unfold VimCommandPalette.handleSubmit. cbv zeta.
  by rewrite trim_eqb_false.
Qed.

Lemma palette_case_insensitive (out : option string) (i1 i2 : string) :
  all_white i1 = false -> all_white i2 = false ->
  command_of i1 = command_of i2 ->
  tail (tokens i1) = tail (tokens i2) ->
  VimCommandPalette.handleSubmit (VimCommandPalette.mkState i1 out)
  = VimCommandPalette.handleSubmit (VimCommandPalette.mkState i2 out).
Proof.
  intros H1 H2 Hcmd Hargs. rewrite !handleSubmit_unfold by done.
  cbv zeta. cbn [VimCommandPalette.input VimCommandPalette.output].
  by rewrite Hcmd, Hargs.
Qed.

(** The [theme] command of the palette. *)
Lemma palette_theme (s : VimCommandPalette.State) :
  command_of (VimCommandPalette.input s) = "theme" ->
  let arg1 := argument_of 1 (VimCommandPalette.input s) in
  let answers msg effs :=
    VimCommandPalette.handleSubmit s
    = VimCommandPalette.Returns
        {| VimCommandPalette.input := ""; VimCommandPalette.output := Some msg |}
        effs in
  (arg1 = Some "silicon" ->
   answers "SWITCHING TO RTL VIEW..." [VimCommandPalette.ThemeChange theme_silicon])
  /\ (arg1 = Some "light" ->
      answers "CLEAN ROOM MODE ACTIVATED" [VimCommandPalette.ThemeChange theme_light])
  /\ (arg1 = Some "dark" \/ arg1 = Some "default" ->
      answers "ABSTRACTION LAYER 0" [VimCommandPalette.ThemeChange theme_default])
  /\ (arg1 ≠ Some "silicon" -> arg1 ≠ Some "light" -> arg1 ≠ Some "dark" ->
      arg1 ≠ Some "default" ->
      answers "Usage: theme [dark|light|silicon]" []).
Proof.
  intros Hcmd arg1 answers. subst answers. cbv beta.
  assert (Hnb : all_white (VimCommandPalette.input s) = false).
  { by eapply command_not_blank. }
  rewrite handleSubmit_unfold by done. cbv zeta. rewrite Hcmd.
  change (VimCommandPalette.lookup "theme")
    with (Some (VimCommandPalette.Own VimCommandPalette.theme)).
  cbv iota beta. unfold VimCommandPalette.theme.
  assert (Harg : JS.toLowerCase <$> tail (tokens (VimCommandPalette.input s)) !! 0%nat
                 = arg1).
  { subst arg1. unfold argument_of. by rewrite lookup_tail. }
  rewrite Harg. clear Harg. split_and!.
  - by intros ->.
  - by intros ->.
  - by intros [-> | ->].
  - intros H1 H2 H3 H4. by rewrite !is_string_false.
Qed.

(** C8, as the code has it. Both interpreters trim the input, split it
    at white space and look the first token up in lower case. In the
    terminal, [theme silicon] changes the theme to silicon and appends
    the line SWITCHING TO RTL VIEW... GATE LEVEL PRIMITIVES EXPOSED.;
    the terminal accepts the arguments silicon, dark and light, and
    answers its usage line to every other argument, [default] included,
    and to a missing one; the palette accepts silicon, light, dark and
    default, and answers its usage line otherwise. The input [bogus]
    appends bash: bogus: command not found in the terminal and sets the
    output E492: Not a command: bogus in the palette, without any
    effect. *)
Theorem command_interpreters :
  (forall pre post w rest,
      all_white pre = true -> all_white post = true -> well_spaced w rest ->
      tokens (pre +:+ sentence w rest +:+ post) = w :: map snd rest)
  /\ (forall p h i1 i2,
        all_white i1 = false -> all_white i2 = false ->
        command_of i1 = command_of i2 ->
        argument_of 1 i1 = argument_of 1 i2 ->
        terminal_answer (Terminal.handleCommand p (Terminal.mkState h i1))
        = terminal_answer (Terminal.handleCommand p (Terminal.mkState h i2)))
  /\ (forall out i1 i2,
        all_white i1 = false -> all_white i2 = false ->
        command_of i1 = command_of i2 ->
        tail (tokens i1) = tail (tokens i2) ->
        VimCommandPalette.handleSubmit (VimCommandPalette.mkState i1 out)
        = VimCommandPalette.handleSubmit (VimCommandPalette.mkState i2 out))
  /\ (forall h onClose,
        Terminal.handleCommand (Terminal.mkProps onClose true)
          (Terminal.mkState h "theme silicon")
        = (Terminal.mkState
             (h ++ [Terminal.mkLine Terminal.input_line (Terminal.Text "theme silicon");
                    Terminal.mkLine Terminal.output_line
                      (Terminal.Text "SWITCHING TO RTL VIEW... GATE LEVEL PRIMITIVES EXPOSED.")])
             "",
           [Terminal.ThemeChange theme_silicon]))
  /\ (forall p s,
        command_of (Terminal.input s) = "theme" ->
        let arg1 := argument_of 1 (Terminal.input s) in
        (arg1 = Some "silicon" ->
         Terminal.handleCommand p s
         = (Terminal.reply s (Terminal.Text "SWITCHING TO RTL VIEW... GATE LEVEL PRIMITIVES EXPOSED."),
            Terminal.theme_effect p theme_silicon))
        /\ (arg1 = Some "dark" ->
            Terminal.handleCommand p s
            = (Terminal.reply s (Terminal.Text "REVERTING TO ABSTRACTION LAYER 0."),
               Terminal.theme_effect p theme_default))
        /\ (arg1 = Some "light" ->
            Terminal.handleCommand p s
            = (Terminal.reply s (Terminal.Text "ACTIVATING CLEAN ROOM PROTOCOLS... ILLUMINATION: 100%"),
               Terminal.theme_effect p theme_light))
        /\ (arg1 ≠ Some "silicon" -> arg1 ≠ Some "dark" -> arg1 ≠ Some "light" ->
            Terminal.handleCommand p s
            = (Terminal.reply s (Terminal.Text "Usage: theme [silicon | light | dark]"), [])))
  /\ (forall s,
        command_of (VimCommandPalette.input s) = "theme" ->
        let arg1 := argument_of 1 (VimCommandPalette.input s) in
        let answers msg effs :=
          VimCommandPalette.handleSubmit s
          = VimCommandPalette.Returns
              {| VimCommandPalette.input := ""; VimCommandPalette.output := Some msg |}
              effs in
        (arg1 = Some "silicon" ->
         answers "SWITCHING TO RTL VIEW..." [VimCommandPalette.ThemeChange theme_silicon])
        /\ (arg1 = Some "light" ->
            answers "CLEAN ROOM MODE ACTIVATED" [VimCommandPalette.ThemeChange theme_light])
        /\ (arg1 = Some "dark" \/ arg1 = Some "default" ->
            answers "ABSTRACTION LAYER 0" [VimCommandPalette.ThemeChange theme_default])
        /\ (arg1 ≠ Some "silicon" -> arg1 ≠ Some "light" -> arg1 ≠ Some "dark" ->
            arg1 ≠ Some "default" ->
            answers "Usage: theme [dark|light|silicon]" []))
  /\ (forall p h,
        Terminal.handleCommand p (Terminal.mkState h "bogus")
        = (Terminal.mkState
             (h ++ [Terminal.mkLine Terminal.input_line (Terminal.Text "bogus");
                    Terminal.mkLine Terminal.output_line
                      (Terminal.Text "bash: bogus: command not found")])
             "",
           []))
  /\ (forall out,
        VimCommandPalette.handleSubmit (VimCommandPalette.mkState "bogus" out)
        = VimCommandPalette.Returns
            (VimCommandPalette.mkState "" (Some "E492: Not a command: bogus")) []).
Proof.
  split_and!.
  - apply tokens_sentence.
  - apply terminal_case_insensitive.
  - apply palette_case_insensitive.
  - reflexivity.
  - apply terminal_theme.
  - apply palette_theme.
  - reflexivity.
  - reflexivity.
Qed.

Lemma command_interpreters_witness :
  command_of "  Theme   LIGHT " = "theme"
  /\ argument_of 1 "  Theme   LIGHT " = Some "light"
  /\ Terminal.handleCommand (Terminal.mkProps false true)
       (Terminal.mkState [] "  Theme   LIGHT ")
     = (Terminal.mkState
          [Terminal.mkLine Terminal.input_line (Terminal.Text "  Theme   LIGHT ");
           Terminal.mkLine Terminal.output_line
             (Terminal.Text "ACTIVATING CLEAN ROOM PROTOCOLS... ILLUMINATION: 100%")]
          "",
        [Terminal.ThemeChange theme_light]).
Proof.
  split; [reflexivity|]. split; [reflexivity|].
  apply (proj1 (proj2 (proj2 (proj2 (proj2 command_interpreters))))
           (Terminal.mkProps false true) (Terminal.mkState [] "  Theme   LIGHT ")).
  - reflexivity.
  - reflexivity.
Defined.

(** C8 as it is stated fails for [default], which it lists among the
    arguments the [theme] command accepts: the terminal answers its
    usage line to [theme default] and changes no theme. *)
Lemma terminal_theme_default_is_usage :
  Terminal.handleCommand (Terminal.mkProps true true)
    (Terminal.mkState [] "theme default")
  = (Terminal.mkState
       [Terminal.mkLine Terminal.input_line (Terminal.Text "theme default");
        Terminal.mkLine Terminal.output_line
          (Terminal.Text "Usage: theme [silicon | light | dark]")]
       "",
     []).
Proof. reflexivity. Qed.

Lemma handleCommand_blank_witness :
  all_white "   " = true
  /\ Terminal.handleCommand (Terminal.mkProps true true)
       (Terminal.mkState (Terminal.history Terminal.initial) "   ")
     = (Terminal.mkState (Terminal.history Terminal.initial) "   ", []).
Proof.
  split; [reflexivity|].
  apply (handleCommand_blank (Terminal.mkProps true true)
           (Terminal.mkState (Terminal.history Terminal.initial) "   ")).
  reflexivity.
Defined.

(** ** The dispatcher and its timers *)

Section Dispatcher.
Import AppContent.

Lemma tick_fire s :
  tick s
  = fire (filter (is_due (S (now s))) (timers s))
      {| now := S (now s); signals := signals s; activeHits := activeHits s;
         targets := targets s;
         timers := filter (fun tm => ¬ is_due (S (now s)) tm) (timers s) |}.
Proof. reflexivity. Qed.

Lemma fire_cons d a due s :
  fire ((d, a) :: due) s = fire due (run_timer a s).
Proof. reflexivity. Qed.

Lemma fire_frame due s :
  now (fire due s) = now s /\ timers (fire due s) = timers s
  /\ targets (fire due s) = targets s.
Proof.
  revert s. induction due as [|[d a] due IH]; intros s; [done|].
  rewrite fire_cons.
  destruct (IH (run_timer a s)) as (-> & -> & ->). by destruct a.
Qed.

Lemma fire_activeHits due s id :
  id ∈ activeHits (fire due s)
  <-> id ∈ activeHits s /\ forall d, (d, RemoveHit id) ∉ due.
Proof.
  revert s. induction due as [|[d a] due IH]; intros s.
  - cbn. split; [|tauto]. intros H. split; [done|]. intros d. apply not_elem_of_nil.
  - rewrite fire_cons. rewrite IH.
    setoid_rewrite not_elem_of_cons.
    destruct a as [id'|id']; cbn [run_timer activeHits].
    + split.
      * intros [Hin Hdue]. split; [done|]. intros d'. split; [congruence | apply Hdue].
      * intros [Hin Hdue]. split; [done|]. intros d'. apply Hdue.
    + rewrite elem_of_difference, not_elem_of_singleton. split.
      * intros [[Hin Hne] Hdue]. split; [done|]. intros d'.
        split; [congruence | apply Hdue].
      * intros [Hin Hdue]. split_and!; [done | | intros d'; apply Hdue].
        intros ->. by destruct (Hdue d) as [? _].
Qed.

Lemma fire_signals due s sg :
  sg ∈ signals (fire due s)
  <-> sg ∈ signals s /\ forall d, (d, RemoveSignal (SignalContext.id sg)) ∉ due.
Proof.
  revert s. induction due as [|[d a] due IH]; intros s.
  - cbn. split; [|tauto]. intros H. split; [done|]. intros d. apply not_elem_of_nil.
  - rewrite fire_cons. rewrite IH.
    setoid_rewrite not_elem_of_cons.
    destruct a as [id'|id']; cbn [run_timer signals].
    + rewrite list_elem_of_filter. split.
      * intros [[Hne Hin] Hdue]. split; [done|]. intros d'.
        split; [congruence | apply Hdue].
      * intros [Hin Hdue]. split_and!; [ | done | intros d'; apply Hdue].
        intros E. destruct (Hdue d) as [Hd _]. by rewrite E in Hd.
    + split.
      * intros [Hin Hdue]. split; [done|]. intros d'. split; [congruence | apply Hdue].
      * intros [Hin Hdue]. split; [done|]. intros d'. apply Hdue.
Qed.

Lemma tick_now s : now (tick s) = S (now s).
Proof. rewrite tick_fire. by destruct (fire_frame
  (filter (is_due (S (now s))) (timers s))
  {| now := S (now s); signals := signals s; activeHits := activeHits s;
     targets := targets s;
     timers := filter (fun tm => ¬ is_due (S (now s)) tm) (timers s) |}) as (-> & _). Qed.

Lemma tick_timers s tm :
  tm ∈ timers (tick s) <-> tm ∈ timers s /\ (S (now s) < tm.1)%nat.
Proof.
  rewrite tick_fire.
  destruct (fire_frame (filter (is_due (S (now s))) (timers s))
    {| now := S (now s); signals := signals s; activeHits := activeHits s;
       targets := targets s;
       timers := filter (fun tm => ¬ is_due (S (now s)) tm) (timers s) |})
    as (_ & -> & _).
  cbn [timers]. rewrite list_elem_of_filter. unfold is_due. split.
  - intros [Hnd Hin]. split; [done | lia].
  - intros [Hin Hlt]. split; [lia | done].
Qed.

Lemma tick_activeHits s id :
  id ∈ activeHits (tick s)
  <-> id ∈ activeHits s
      /\ forall d, (d, RemoveHit id) ∈ timers s -> (S (now s) < d)%nat.
Proof.
  rewrite tick_fire, fire_activeHits. cbn [activeHits].
  setoid_rewrite list_elem_of_filter. unfold is_due. cbn [fst].
  split; intros [Hin Hdue]; (split; [done|]); intros d.
  - intros Hd. destruct (decide (d <= S (now s))%nat) as [Hle|]; [|lia].
    destruct (Hdue d). done.
  - intros [Hle Hd]. apply Hdue in Hd. lia.
Qed.

Lemma tick_signals s sg :
  sg ∈ signals (tick s)
  <-> sg ∈ signals s
      /\ forall d, (d, RemoveSignal (SignalContext.id sg)) ∈ timers s ->
                   (S (now s) < d)%nat.
Proof.
  rewrite tick_fire, fire_signals. cbn [signals].
  setoid_rewrite list_elem_of_filter. unfold is_due. cbn [fst].
  split; intros [Hin Hdue]; (split; [done|]); intros d.
  - intros Hd. destruct (decide (d <= S (now s))%nat) as [Hle|]; [|lia].
    destruct (Hdue d). done.
  - intros [Hle Hd]. apply Hdue in Hd. lia.
Qed.

Lemma run_app evs1 evs2 s : run (evs1 ++ evs2) s = run evs2 (run evs1 s).
Proof. apply foldl_app. Qed.

Lemma run_cons e evs s : run (e :: evs) s = run evs (step s e).
Proof. reflexivity. Qed.

Lemma step_now s e :
  now (step s e) = (now s + match e with Tick => 1 | _ => 0 end)%nat.
Proof. destruct e; cbn; rewrite ?tick_now; lia. Qed.

Lemma run_now evs s : now (run evs s) = (now s + elapsed evs)%nat.
Proof.
  revert s. induction evs as [|e evs IH]; intros s; [cbn; lia|].
  rewrite run_cons, IH, step_now. destruct e; cbn [elapsed]; lia.
Qed.

(** A property kept by every step of a run holds at its end. *)
Lemma run_invariant (P : AppState -> Prop) (allowed : Event -> Prop) evs s :
  (forall st e, allowed e -> P st -> P (step st e)) ->
  Forall allowed evs -> P s -> P (run evs s).
Proof.
  intros Hstep. revert s. induction evs as [|e evs IH]; intros s Hall Hs; [done|].
  apply Forall_cons in Hall as [He Hall]. rewrite run_cons. auto.
Qed.

Lemma filter_none {A : Type} (P : A -> Prop) `{!forall x, Decision (P x)}
    (l : list A) :
  Forall (fun x => ¬ P x) l -> filter P l = [].
Proof.
  induction 1 as [|x l Hx Hl IH]; [done|].
  by rewrite filter_cons_False.
Qed.

(** A tick that finds no timer due only advances the clock. *)
Lemma tick_idle s :
  Forall (fun tm => (S (now s) < tm.1)%nat) (timers s) ->
  tick s = {| now := S (now s); signals := signals s;
              activeHits := activeHits s; targets := targets s;
              timers := timers s |}.
Proof.
  intros Hlater. rewrite tick_fire.
  rewrite (filter_none (is_due (S (now s)))).
  - cbn. f_equal. apply filter_all_elem. intros tm Htm.
    rewrite Forall_forall in Hlater. apply Hlater in Htm. clear Hlater.
    unfold is_due. lia.
  - eapply Forall_impl; [exact Hlater|]. intros tm Htm. cbn beta in Htm.
    unfold is_due. lia.
Qed.

(** So do [n] ticks when every timer is due later than that. *)
Lemma run_idle n s :
  Forall (fun tm => (now s + n < tm.1)%nat) (timers s) ->
  run (replicate n Tick) s
  = {| now := (now s + n)%nat; signals := signals s;
       activeHits := activeHits s; targets := targets s;
       timers := timers s |}.
Proof.
  revert s. induction n as [|n IH]; intros s Hlater.
  - cbn. rewrite Nat.add_0_r. by destruct s.
  - cbn [replicate]. rewrite run_cons. cbn [step].
    rewrite tick_idle.
    + rewrite IH; cbn.
      * f_equal. lia.
      * eapply Forall_impl; [exact Hlater|]. intros tm Htm. cbn in Htm. lia.
    + eapply Forall_impl; [exact Hlater|]. intros tm Htm. cbn in Htm. lia.
Qed.

(** The timers left after [n] ticks were set before and are due later. *)
Lemma run_ticks_timers n s tm :
  tm ∈ timers (run (replicate n Tick) s) ->
  tm ∈ timers s /\ (n = 0%nat \/ (now s + n < tm.1)%nat).
Proof.
  revert s. induction n as [|n IH]; intros s; [by auto|].
  cbn [replicate]. rewrite run_cons. cbn [step].
  intros [[Htm Hlater]%tick_timers Hn]%IH. split; [done|]. right.
  rewrite tick_now in Hn. lia.
Qed.

End Dispatcher.

(** Every timer in a given queue is due later than the given time. *)
Ltac later_timers :=
  repeat (apply List.Forall_cons; [apply Nat.ltb_lt; reflexivity|]);
  apply List.Forall_nil.

(** ** Highlights *)



Section Highlight.
Import AppContent.

Variable id : string.
Variable s0 : AppState.

Lemma hit_expiring_step st e :
  is_hit id e = false ->
  hit_expiring id (now s0 + 500) st -> hit_expiring id (now s0 + 500) (step st e).
Proof.
  unfold hit_expiring. intros He Hst.
  destruct e as [type ref|rect color rnd36|id'|]; cbn [step].
  - exact Hst.
  - destruct Hst as [[Hlt Hin]|[Hle Hout]]; [left|right]; cbn.
    + split; [done|]. apply elem_of_app. by left.
    + done.
  - cbn in He. apply String.eqb_neq in He.
    destruct Hst as [[Hlt Hin]|[Hle Hout]]; [left|right]; cbn.
    + split; [done|]. apply elem_of_app. by left.
    + split; [done|]. rewrite elem_of_union, elem_of_singleton.
      intros [E|E]; [congruence | done].
  - destruct Hst as [[Hlt Hin]|[Hle Hout]].
    + destruct (Nat.lt_ge_cases (S (now st)) (now s0 + 500)) as [Hlt'|Hge].
      * left. rewrite tick_now, tick_timers. done.
      * right. rewrite tick_now. split; [lia|].
        rewrite tick_activeHits. intros [_ Hdue]. apply Hdue in Hin. lia.
    + right. rewrite tick_now. split; [lia|].
      rewrite tick_activeHits. tauto.
Qed.

Lemma hit_gone evs :
  existsb (is_hit id) evs = false -> (500 <= elapsed evs)%nat ->
  id ∉ activeHits (run evs (hitTarget id s0)).
Proof.
  intros Hno Hlong.
  assert (Hinv : hit_expiring id (now s0 + 500) (run evs (hitTarget id s0))).
  { apply (run_invariant (hit_expiring id (now s0 + 500))
             (fun e => is_hit id e = false)).
    - apply hit_expiring_step.
    - apply Forall_forall. intros e He.
      destruct (is_hit id e) eqn:E; [|done].
      assert (existsb (is_hit id) evs = true); [|congruence].
      apply existsb_exists. exists e. split; [by apply list_elem_of_In | done].
    - left. cbn. split; [lia|]. apply elem_of_app. right. by left. }
  destruct Hinv as [[Hlt _]|[_ Hout]]; [|done].
  rewrite run_now in Hlt. cbn in Hlt. lia.
Qed.

Lemma hit_lasting_step st e :
  hit_lasting id (now s0) st -> hit_lasting id (now s0) (step st e).
Proof.
  unfold hit_lasting. intros (Hnow & Hdue & Hin).
  destruct e as [type ref|rect color rnd36|id'|]; cbn [step].
  - done.
  - split_and!; cbn; [done | | done].
    intros d [Hd|Hd]%elem_of_app; [by apply Hdue|].
    apply list_elem_of_singleton in Hd. congruence.
  - split_and!; cbn; [done | |].
    + intros d [Hd|Hd]%elem_of_app; [by apply Hdue|].
      apply list_elem_of_singleton in Hd. injection Hd as -> ->. lia.
    + intros Hlt. apply elem_of_union. right. by apply Hin.
  - rewrite tick_now. split_and!; [lia | |].
    + intros d [Hd _]%tick_timers. by apply Hdue.
    + intros Hlt. apply tick_activeHits. split; [apply Hin; lia|].
      intros d Hd. apply Hdue in Hd. lia.
Qed.

Lemma hit_stays evs :
  (forall d, (d, RemoveHit id) ∉ timers s0) -> (elapsed evs < 500)%nat ->
  id ∈ activeHits (run evs (hitTarget id s0)).
Proof.
  intros Hfree Hshort.
  assert (Hinv : hit_lasting id (now s0) (run evs (hitTarget id s0))).
  { apply (run_invariant (hit_lasting id (now s0)) (fun _ => True)).
    - intros st e _. apply hit_lasting_step.
    - by apply Forall_forall.
    - split_and!; cbn; [done | |].
      + intros d [Hd|Hd]%elem_of_app; [by apply Hfree in Hd|].
        apply list_elem_of_singleton in Hd. injection Hd as ->. done.
      + intros _. apply elem_of_union. left. by apply elem_of_singleton. }
  destruct Hinv as (_ & _ & Hin). apply Hin.
  rewrite run_now. cbn. lia.
Qed.

Lemma elapsed_0_no_tick evs :
  elapsed evs = 0%nat -> Forall (fun e => e ≠ Tick) evs.
Proof.
  induction evs as [|e evs IH]; [done|].
  destruct e; cbn [elapsed]; try done; intros H; apply Forall_cons; auto.
Qed.

Lemma hit_at_once evs :
  elapsed evs = 0%nat -> id ∈ activeHits (run evs (hitTarget id s0)).
Proof.
  intros H%elapsed_0_no_tick.
  apply (run_invariant (fun st => id ∈ activeHits st) (fun e => e ≠ Tick)).
  - intros st [type ref|rect color rnd36|id'|] He Hst; cbn; [done | done | | done].
    apply elem_of_union. by right.
  - done.
  - cbn. apply elem_of_union. left. by apply elem_of_singleton.
Qed.

End Highlight.

(** C4, as the code has it. After [hitTarget(id)] the identifier is in
    the hit state, and stays there as long as no time passes; it stays
    for the whole 500 ms when no removal for it was pending at the call.
    It is not in the hit state at any time 500 ms or more after the call,
    provided [hitTarget] is not called with the same identifier again
    between the call and that time. *)
Theorem hit_highlight_expires (id : string) (s : AppContent.AppState)
    (evs : list AppContent.Event) :
  let after := AppContent.run evs (AppContent.hitTarget id s) in
  (AppContent.elapsed evs = 0%nat -> id ∈ AppContent.activeHits after)
  /\ ((forall d, (d, AppContent.RemoveHit id) ∉ AppContent.timers s) ->
      (AppContent.elapsed evs < 500)%nat ->
      id ∈ AppContent.activeHits after)
  /\ (existsb (is_hit id) evs = false ->
      (500 <= AppContent.elapsed evs)%nat ->
      id ∉ AppContent.activeHits after).
Proof.
  intros after. subst after. split_and!.
  - apply hit_at_once.
  - apply hit_stays.
  - apply hit_gone.
Qed.

Lemma hit_highlight_expires_witness :
  let evs := AppContent.Register cat_skills 10
             :: replicate 250 AppContent.Tick
             ++ AppContent.Hit "trace-1" :: replicate 250 AppContent.Tick in
  existsb (is_hit "skill-0") evs = false
  /\ (500 <= AppContent.elapsed evs)%nat
  /\ "skill-0" ∉ AppContent.activeHits
                   (AppContent.run evs (AppContent.hitTarget "skill-0" AppContent.init)).
Proof.
  intros evs.
  assert (H1 : existsb (is_hit "skill-0") evs = false) by reflexivity.
  assert (H2 : (500 <= AppContent.elapsed evs)%nat) by (by apply Nat.leb_le).
  split; [exact H1|]. split; [exact H2|].
  exact (proj2 (proj2 (hit_highlight_expires "skill-0" AppContent.init evs)) H1 H2).
Defined.

(** C4 as it is stated fails when [hitTarget] is called again later than
    500 ms after the call: no second call falls within the 500 ms that
    follow the first, yet the identifier is in the hit state 700 ms after
    it. *)
Lemma hit_again_after_expiry :
  let evs := replicate 600 AppContent.Tick
             ++ AppContent.Hit "skill-0" :: replicate 100 AppContent.Tick in
  no_hit_within "skill-0" 500 evs = true
  /\ AppContent.elapsed evs = 700%nat
  /\ "skill-0" ∈ AppContent.activeHits
                   (AppContent.run evs (AppContent.hitTarget "skill-0" AppContent.init)).
Proof.
  intros evs. split; [reflexivity|]. split; [reflexivity|]. subst evs.
  rewrite run_app, run_cons. cbn [AppContent.step].
  apply hit_stays.
  - intros d [Hd [Hn|Hlater]]%run_ticks_timers; [done|].
    cbn in Hd. apply list_elem_of_singleton in Hd. injection Hd as ->.
    cbn in Hlater. lia.
  - apply Nat.ltb_lt. reflexivity.
Qed.

(** ** Signals *)


Section Lifetime.
Import AppContent.

Variable rect : DOMRect.t.
Variable color rnd36 : string.
Variable s0 : AppState.

Lemma signal_expiring_step st e :
  is_emit (JS.substr 2 9 rnd36) e = false ->
  signal_expiring (JS.substr 2 9 rnd36) (now s0 + 2500) st ->
  signal_expiring (JS.substr 2 9 rnd36) (now s0 + 2500) (step st e).
Proof.
  unfold signal_expiring. intros He Hst.
  destruct e as [type ref|rect' color' rnd36'|id'|]; cbn [step].
  - exact Hst.
  - cbn in He. apply String.eqb_neq in He.
    destruct Hst as [[Hlt Hin]|[Hle Hout]]; [left|right]; cbn.
    + split; [done|]. apply elem_of_app. by left.
    + split; [done|]. intros sg [Hsg|Hsg]%elem_of_app; [by apply Hout|].
      apply list_elem_of_singleton in Hsg. by subst sg.
  - destruct Hst as [[Hlt Hin]|[Hle Hout]]; [left|right]; cbn.
    + split; [done|]. apply elem_of_app. by left.
    + done.
  - destruct Hst as [[Hlt Hin]|[Hle Hout]].
    + destruct (Nat.lt_ge_cases (S (now st)) (now s0 + 2500)) as [Hlt'|Hge].
      * left. rewrite tick_now, tick_timers. done.
      * right. rewrite tick_now. split; [lia|].
        intros sg [Hsg Hdue]%tick_signals E. rewrite E in Hdue.
        apply Hdue in Hin. lia.
    + right. rewrite tick_now. split; [lia|].
      intros sg [Hsg _]%tick_signals. by apply Hout.
Qed.

Lemma signal_gone evs :
  existsb (is_emit (JS.substr 2 9 rnd36)) evs = false ->
  (2500 <= elapsed evs)%nat ->
  forall sg, sg ∈ signals (run evs (emitSignal rect color rnd36 s0)) ->
             SignalContext.id sg ≠ JS.substr 2 9 rnd36.
Proof.
  intros Hno Hlong.
  assert (Hinv : signal_expiring (JS.substr 2 9 rnd36) (now s0 + 2500)
                   (run evs (emitSignal rect color rnd36 s0))).
  { apply (run_invariant (signal_expiring (JS.substr 2 9 rnd36) (now s0 + 2500))
             (fun e => is_emit (JS.substr 2 9 rnd36) e = false)).
    - apply signal_expiring_step.
    - apply Forall_forall. intros e He.
      destruct (is_emit (JS.substr 2 9 rnd36) e) eqn:E; [|done].
      assert (existsb (is_emit (JS.substr 2 9 rnd36)) evs = true); [|congruence].
      apply existsb_exists. exists e. split; [by apply list_elem_of_In | done].
    - left. cbn. split; [lia|]. apply elem_of_app. right. by left. }
  destruct Hinv as [[Hlt _]|[_ Hout]]; [|done].
  rewrite run_now in Hlt. cbn in Hlt. lia.
Qed.

Lemma signal_lasting_step sg st e :
  SignalContext.id sg = JS.substr 2 9 rnd36 ->
  signal_lasting sg (now s0) st -> signal_lasting sg (now s0) (step st e).
Proof.
  unfold signal_lasting. intros Hid (Hnow & Hdue & Hin). rewrite Hid in *.
  destruct e as [type ref|rect' color' rnd36'|id'|]; cbn [step].
  - done.
  - split_and!; cbn; [done | |].
    + intros d [Hd|Hd]%elem_of_app; [by apply Hdue|].
      apply list_elem_of_singleton in Hd. injection Hd as -> _. lia.
    + intros Hlt. apply elem_of_app. left. by apply Hin.
  - split_and!; cbn; [done | | done].
    intros d [Hd|Hd]%elem_of_app; [by apply Hdue|].
    apply list_elem_of_singleton in Hd. congruence.
  - rewrite tick_now. split_and!; [lia | |].
    + intros d [Hd _]%tick_timers. by apply Hdue.
    + intros Hlt. apply tick_signals. split; [apply Hin; lia|].
      rewrite Hid. intros d Hd. apply Hdue in Hd. lia.
Qed.

Lemma signal_stays evs :
  (forall d, (d, RemoveSignal (JS.substr 2 9 rnd36)) ∉ timers s0) ->
  (elapsed evs < 2500)%nat ->
  SignalContext.mkSignal (JS.substr 2 9 rnd36)
    (DOMRect.left rect + DOMRect.width rect / 2)%Q
    (DOMRect.top rect + DOMRect.height rect / 2)%Q color
  ∈ signals (run evs (emitSignal rect color rnd36 s0)).
Proof.
  intros Hfree Hshort.
  set (sg0 := SignalContext.mkSignal (JS.substr 2 9 rnd36)
                (DOMRect.left rect + DOMRect.width rect / 2)%Q
                (DOMRect.top rect + DOMRect.height rect / 2)%Q color).
  assert (Hinv : signal_lasting sg0 (now s0)
                   (run evs (emitSignal rect color rnd36 s0))).
  { apply (run_invariant (signal_lasting sg0 (now s0)) (fun _ => True)).
    - intros st e _. by apply signal_lasting_step.
    - by apply Forall_forall.
    - split_and!; cbn; [done | |].
      + intros d [Hd|Hd]%elem_of_app; [by apply Hfree in Hd|].
        apply list_elem_of_singleton in Hd. injection Hd as ->. done.
      + intros _. apply elem_of_app. right. by left. }
  destruct Hinv as (_ & _ & Hin). apply Hin.
  rewrite run_now. cbn. lia.
Qed.

End Lifetime.

(** A signal whose identifier no other live or later signal shares is in
    the collection for the 2500 ms after its emission, and no signal with
    its identifier is there afterwards; the single removal that
    [emitSignal] sets is due 2500 ms after the call. *)
Lemma signal_lifetime (rect : DOMRect.t) (color rnd36 : string)
    (s : AppContent.AppState) (evs : list AppContent.Event) :
  let id := JS.substr 2 9 rnd36 in
  let after := AppContent.run evs (AppContent.emitSignal rect color rnd36 s) in
  AppContent.timers (AppContent.emitSignal rect color rnd36 s)
  = AppContent.timers s
    ++ [((AppContent.now s + 2500)%nat, AppContent.RemoveSignal id)]
  /\ ((forall d, (d, AppContent.RemoveSignal id) ∉ AppContent.timers s) ->
      (AppContent.elapsed evs < 2500)%nat ->
      exists sg, sg ∈ AppContent.signals after /\ SignalContext.id sg = id)
  /\ (existsb (is_emit id) evs = false ->
      (2500 <= AppContent.elapsed evs)%nat ->
      forall sg, sg ∈ AppContent.signals after -> SignalContext.id sg ≠ id).
Proof.
  intros id after. split_and!.
  - reflexivity.
  - intros Hfree Hshort. eexists. split; [by apply signal_stays|]. done.
  - apply signal_gone.
Qed.

Lemma substring_prefix (digits tail : string) :
  substring 0 (String.length digits) (digits +:+ tail) = digits.
Proof.
  induction digits as [|c digits IH]; simpl.
  - by destruct tail.
  - by rewrite IH.
Qed.

(** The identifier cut out of a text with nine or more digits after
    [0.] is its first nine digits. *)
Lemma identifier_of_text (digits tail : string) :
  String.length digits = 9%nat ->
  JS.substr 2 9 ("0." +:+ digits +:+ tail) = digits.
Proof.
  intros Hlen. unfold JS.substr.
  change ("0." +:+ digits +:+ tail) with (String "0" (String "." (digits +:+ tail))).
  cbn [substring]. rewrite <- Hlen. apply substring_prefix.
Qed.

(** C7. The identifier of a signal is the text of at most nine digits cut
    out of [Math.random().toString(36)], and nothing compares it with the
    identifiers in use, so two calls of [emitSignal] whose draws print
    alike give two signals with one identifier: with the same text,
    whatever it is (0.i when both draws are 0.5), and with any two texts
    that share the nine digits after [0.]. *)
Theorem emitSignal_identifier_collision (rect1 rect2 : DOMRect.t)
    (color1 color2 : string) (s : AppContent.AppState) :
  (forall rnd36, exists sg1 sg2,
      AppContent.signals
        (AppContent.emitSignal rect2 color2 rnd36
           (AppContent.emitSignal rect1 color1 rnd36 s))
      = AppContent.signals s ++ [sg1; sg2]
      /\ SignalContext.id sg1 = SignalContext.id sg2)
  /\ map SignalContext.id
       (AppContent.signals
          (AppContent.run
             [AppContent.Emit rect1 color1 "0.i"; AppContent.Tick;
              AppContent.Emit rect2 color2 "0.i"]
             AppContent.init))
     = ["i"; "i"]
  /\ (forall digits tail1 tail2,
        String.length digits = 9%nat ->
        exists sg1 sg2,
          AppContent.signals
            (AppContent.emitSignal rect2 color2 ("0." +:+ digits +:+ tail2)
               (AppContent.emitSignal rect1 color1 ("0." +:+ digits +:+ tail1) s))
          = AppContent.signals s ++ [sg1; sg2]
          /\ SignalContext.id sg1 = digits /\ SignalContext.id sg2 = digits).
Proof.
  split_and!.
  - intros rnd36. do 2 eexists. split.
    + cbn. rewrite <- app_assoc. reflexivity.
    + reflexivity.
  - reflexivity.
  - intros digits tail1 tail2 Hlen. do 2 eexists. split_and!.
    + cbn. rewrite <- app_assoc. reflexivity.
    + by apply identifier_of_text.
    + by apply identifier_of_text.
Qed.

Lemma emitSignal_identifier_collision_witness :
  String.length "i00000000" = 9%nat
  /\ exists sg1 sg2,
       AppContent.signals
         (AppContent.emitSignal (DOMRect.mk 400 100 20 20) "#b026ff"
            ("0." +:+ "i00000000" +:+ "0t")
            (AppContent.emitSignal (DOMRect.mk 100 100 20 20) "#00f3ff"
               ("0." +:+ "i00000000" +:+ "0f") AppContent.init))
       = AppContent.signals AppContent.init ++ [sg1; sg2]
       /\ SignalContext.id sg1 = "i00000000"
       /\ SignalContext.id sg2 = "i00000000".
Proof.
  split; [reflexivity|].
  apply (proj2 (proj2 (emitSignal_identifier_collision
                         (DOMRect.mk 100 100 20 20) (DOMRect.mk 400 100 20 20)
                         "#00f3ff" "#b026ff" AppContent.init))
           "i00000000" "0f" "0t").
  reflexivity.
Defined.

(** C3. Two signals emitted 1000 ms apart whose draws both print as 0.i
    get the identifier i. The removal set for the first runs 2500 ms
    after the first emission and filters out both: the second signal
    leaves the collection 1500 ms after its emission, and the removal set
    for it is still pending. *)
Theorem colliding_signal_removed_early :
  let emit1 := AppContent.Emit (DOMRect.mk 100 100 20 20) "#00f3ff" "0.i" in
  let emit2 := AppContent.Emit (DOMRect.mk 400 100 20 20) "#b026ff" "0.i" in
  let before := emit1 :: replicate 1000 AppContent.Tick
                ++ emit2 :: replicate 1499 AppContent.Tick in
  let st := AppContent.run (before ++ [AppContent.Tick]) AppContent.init in
  map SignalContext.id (AppContent.signals (AppContent.run before AppContent.init))
  = ["i"; "i"]
  /\ AppContent.now st = 2500%nat
  /\ AppContent.signals st = []
  /\ AppContent.timers st = [(3500%nat, AppContent.RemoveSignal "i")].
Proof.
  intros emit1 emit2 before st.
  assert (Hbefore :
    AppContent.run before AppContent.init
    = {| AppContent.now := 2499;
         AppContent.signals :=
           [SignalContext.mkSignal "i" (100 + 20 / 2) (100 + 20 / 2) "#00f3ff";
            SignalContext.mkSignal "i" (400 + 20 / 2) (100 + 20 / 2) "#b026ff"];
         AppContent.activeHits := ∅;
         AppContent.targets := empty_registry;
         AppContent.timers :=
           [(2500%nat, AppContent.RemoveSignal "i");
            (3500%nat, AppContent.RemoveSignal "i")] |}).
  { subst before emit1 emit2.
    rewrite run_cons, run_app. cbn [AppContent.step].
    rewrite run_idle by later_timers.
    rewrite run_cons. cbn [AppContent.step].
    rewrite run_idle by later_timers.
    reflexivity. }
  subst st. rewrite run_app, Hbefore. split_and!; reflexivity.
Qed.

(** * Further properties *)

(** ** The registry over a run *)

Lemma registerTarget_prefix type type' ref t :
  category_of t type' `prefix_of` category_of (registerTarget type ref t) type'.
Proof.
  unfold registerTarget. destruct (negb _); [|done].
  destruct type, type'; cbn; try done; by apply prefix_app_r.
Qed.

Lemma indexOf_prefix (xs ys : list nat) (x i : nat) :
  xs `prefix_of` ys -> JS.indexOf xs x = Some i -> JS.indexOf ys x = Some i.
Proof. intros [k ->]. apply indexOf_app_l. Qed.

Lemma step_targets st e :
  AppContent.targets (AppContent.step st e)
  = match e with
    | AppContent.Register type ref => registerTarget type ref (AppContent.targets st)
    | _ => AppContent.targets st
    end.
Proof.
  destruct e; cbn; try done. rewrite tick_fire.
  by destruct (fire_frame
    (filter (AppContent.is_due (S (AppContent.now st))) (AppContent.timers st))
    {| AppContent.now := S (AppContent.now st);
       AppContent.signals := AppContent.signals st;
       AppContent.activeHits := AppContent.activeHits st;
       AppContent.targets := AppContent.targets st;
       AppContent.timers :=
         filter (fun tm => ¬ AppContent.is_due (S (AppContent.now st)) tm)
                (AppContent.timers st) |}) as (_ & _ & ->).
Qed.

(** X1. Whatever happens to the dispatcher, a category of the registry
    that holds no handle twice goes on holding none twice, keeps the
    handles it has where they are (it only grows at its end), and so
    keeps the index [indexOf] finds for each of them. *)
Theorem registry_grows_without_duplicates (evs : list AppContent.Event)
    (s : AppContent.AppState) (type : Category) :
  NoDup (category_of (AppContent.targets s) type) ->
  NoDup (category_of (AppContent.targets (AppContent.run evs s)) type)
  /\ category_of (AppContent.targets s) type
     `prefix_of` category_of (AppContent.targets (AppContent.run evs s)) type
  /\ forall h idx,
       JS.indexOf (category_of (AppContent.targets s) type) h = Some idx ->
       JS.indexOf (category_of (AppContent.targets (AppContent.run evs s)) type) h
       = Some idx.
Proof.
  intros Hnd.
  assert (Hinv : NoDup (category_of (AppContent.targets (AppContent.run evs s)) type)
                 /\ category_of (AppContent.targets s) type
                    `prefix_of` category_of
                                  (AppContent.targets (AppContent.run evs s)) type).
  { apply (run_invariant
             (fun st => NoDup (category_of (AppContent.targets st) type)
                        /\ category_of (AppContent.targets s) type
                           `prefix_of` category_of (AppContent.targets st) type)
             (fun _ => True)).
    - intros st e _ [Hn Hp]. rewrite step_targets. destruct e; try done.
      split; [by apply registerTarget_NoDup|].
      etrans; [exact Hp | apply registerTarget_prefix].
    - by apply Forall_forall.
    - done. }
  destruct Hinv as [Hn Hp]. split_and!; [done | done |].
  intros h idx. by apply indexOf_prefix.
Qed.

Lemma registry_grows_without_duplicates_witness :
  let evs := [AppContent.Register cat_skills 10; AppContent.Hit "skill-0";
              AppContent.Register cat_skills 11; AppContent.Tick;
              AppContent.Register cat_skills 10] in
  NoDup (category_of (AppContent.targets AppContent.init) cat_skills)
  /\ NoDup (category_of
              (AppContent.targets (AppContent.run evs AppContent.init)) cat_skills).
Proof.
  intros evs.
  assert (H : NoDup (category_of (AppContent.targets AppContent.init) cat_skills))
    by apply NoDup_nil_2.
  split; [exact H|].
  exact (proj1 (registry_grows_without_duplicates evs AppContent.init cat_skills H)).
Defined.

(** ** Nothing stays behind *)

Section Drain.
Import AppContent.

Lemma removals_pending_init : removals_pending 2500 500 init.
Proof.
  unfold removals_pending. cbn. split_and!.
  - intros tm Htm. by apply not_elem_of_nil in Htm.
  - intros d id Htm. by apply not_elem_of_nil in Htm.
  - intros d id Htm. by apply not_elem_of_nil in Htm.
  - intros sg Hsg. by apply not_elem_of_nil in Hsg.
  - intros id Hid. by apply not_elem_of_empty in Hid.
Qed.

Lemma removals_pending_weaken Ts Th Ts' Th' st :
  (Ts <= Ts')%nat -> (Th <= Th')%nat ->
  removals_pending Ts Th st -> removals_pending Ts' Th' st.
Proof.
  intros Hs Hh (Hahead & Hsig & Hhit & Hcs & Hch). split_and!; try done.
  - intros d id Hd. apply Hsig in Hd. lia.
  - intros d id Hd. apply Hhit in Hd. lia.
Qed.

(** A step keeps the removals pending; an emission or a highlight moves
    the time by which they are due to 2500 or 500 ms from now. *)
Lemma removals_pending_step Ts Th st e :
  removals_pending Ts Th st ->
  removals_pending
    (if is_emission e then Nat.max Ts (now st + 2500) else Ts)
    (if is_hit_call e then Nat.max Th (now st + 500) else Th)
    (step st e).
Proof.
  intros (Hahead & Hsig & Hhit & Hcs & Hch).
  destruct e as [type ref|rect color rnd36|id'|]; cbn [step is_emission is_hit_call].
  - done.
  - split_and!; cbn.
    + intros tm [Htm|Htm]%elem_of_app; [by apply Hahead|].
      apply list_elem_of_singleton in Htm. subst tm. cbn. lia.
    + intros d id [Hd|Hd]%elem_of_app; [apply Hsig in Hd; lia|].
      apply list_elem_of_singleton in Hd. injection Hd as -> _. lia.
    + intros d id [Hd|Hd]%elem_of_app; [by apply Hhit in Hd|].
      apply list_elem_of_singleton in Hd. congruence.
    + intros sg [Hsg|Hsg]%elem_of_app.
      * destruct (Hcs sg Hsg) as [d Hd]. exists d. apply elem_of_app. by left.
      * apply list_elem_of_singleton in Hsg. subst sg. cbn.
        eexists. apply elem_of_app. right. by left.
    + intros id Hid. destruct (Hch id Hid) as [d Hd]. exists d.
      apply elem_of_app. by left.
  - split_and!; cbn.
    + intros tm [Htm|Htm]%elem_of_app; [by apply Hahead|].
      apply list_elem_of_singleton in Htm. subst tm. cbn. lia.
    + intros d id [Hd|Hd]%elem_of_app; [by apply Hsig in Hd|].
      apply list_elem_of_singleton in Hd. congruence.
    + intros d id [Hd|Hd]%elem_of_app; [apply Hhit in Hd; lia|].
      apply list_elem_of_singleton in Hd. injection Hd as -> _. lia.
    + intros sg Hsg. destruct (Hcs sg Hsg) as [d Hd]. exists d.
      apply elem_of_app. by left.
    + intros id [Hid|Hid]%elem_of_union.
      * apply elem_of_singleton in Hid. subst id. eexists.
        apply elem_of_app. right. by left.
      * destruct (Hch id Hid) as [d Hd]. exists d. apply elem_of_app. by left.
  - split_and!.
    + intros tm [Htm Hlater]%tick_timers. by rewrite tick_now.
    + intros d id [Hd _]%tick_timers. by apply Hsig in Hd.
    + intros d id [Hd _]%tick_timers. by apply Hhit in Hd.
    + intros sg [Hsg Hlater]%tick_signals. destruct (Hcs sg Hsg) as [d Hd].
      exists d. apply tick_timers. split; [done|]. cbn. by apply Hlater.
    + intros id [Hid Hlater]%tick_activeHits. destruct (Hch id Hid) as [d Hd].
      exists d. apply tick_timers. split; [done|]. cbn. by apply Hlater.
Qed.

(** In every state the dispatcher reaches, the removals are pending and
    due within the lifetimes. *)
Lemma removals_pending_reachable evs :
  removals_pending (now (run evs init) + 2500) (now (run evs init) + 500)
    (run evs init).
Proof.
  induction evs as [|e evs IH] using rev_ind.
  - apply removals_pending_init.
  - rewrite run_app. cbn [run foldl]. fold (run evs init).
    eapply removals_pending_weaken;
      [| | apply removals_pending_step, IH];
      rewrite step_now; destruct e; cbn; lia.
Qed.

Lemma removals_pending_run Ts Th evs st :
  removals_pending Ts Th st ->
  removals_pending
    (if existsb is_emission evs then Nat.max Ts (now st + elapsed evs + 2500) else Ts)
    (if existsb is_hit_call evs then Nat.max Th (now st + elapsed evs + 500) else Th)
    (run evs st).
Proof.
  revert Ts Th st. induction evs as [|e evs IH]; intros Ts Th st Hst; [done|].
  rewrite run_cons. apply removals_pending_step with (e := e) in Hst.
  apply IH in Hst. rewrite step_now in Hst.
  revert Hst. generalize 2500%nat. generalize 500%nat. intros Lh Ls Hst.
  clear IH. revert Hst.
  destruct e; cbn [existsb is_emission is_hit_call orb elapsed];
    generalize (existsb is_emission evs) (existsb is_hit_call evs)
               (elapsed evs) (now st);
    intros em hc k t Hst;
    (eapply removals_pending_weaken; [| | exact Hst]); destruct em, hc; lia.
Qed.

End Drain.

(** X2. No signal stays behind: in any state the dispatcher reaches from
    its initial state, once 2500 ms have passed without a call of
    [emitSignal] the collection of active signals is empty, whether or
    not identifiers collided. *)
Theorem signals_drain (evs1 evs2 : list AppContent.Event) :
  existsb is_emission evs2 = false ->
  (2500 <= AppContent.elapsed evs2)%nat ->
  AppContent.signals (AppContent.run (evs1 ++ evs2) AppContent.init) = [].
Proof.
  intros Hno Hlong. rewrite run_app.
  pose proof (removals_pending_run _ _ evs2 _ (removals_pending_reachable evs1))
    as (Hahead & Hsig & _ & Hcs & _).
  rewrite Hno in Hsig.
  destruct (AppContent.signals _) as [|sg sgs] eqn:E; [done|]. exfalso.
  destruct (Hcs sg) as [d Hd]; [by left|].
  pose proof (Hahead _ Hd) as Hlt. apply Hsig in Hd.
  rewrite run_now in Hlt. cbn in Hlt. lia.
Qed.

Lemma signals_drain_witness :
  let evs1 := [AppContent.Emit (DOMRect.mk 100 100 20 20) "#00f3ff" "0.i";
               AppContent.Tick;
               AppContent.Emit (DOMRect.mk 400 100 20 20) "#b026ff" "0.i"] in
  let evs2 := AppContent.Hit "skill-0" :: replicate 2500 AppContent.Tick in
  existsb is_emission evs2 = false
  /\ (2500 <= AppContent.elapsed evs2)%nat
  /\ AppContent.signals (AppContent.run (evs1 ++ evs2) AppContent.init) = [].
Proof.
  intros evs1 evs2.
  assert (H1 : existsb is_emission evs2 = false) by reflexivity.
  assert (H2 : (2500 <= AppContent.elapsed evs2)%nat) by (by apply Nat.leb_le).
  split; [exact H1|]. split; [exact H2|].
  exact (signals_drain evs1 evs2 H1 H2).
Defined.

(** X3. No highlight stays behind: in any state the dispatcher reaches
    from its initial state, once 500 ms have passed without a call of
    [hitTarget] the hit state is empty. *)
Theorem highlights_drain (evs1 evs2 : list AppContent.Event) :
  existsb is_hit_call evs2 = false ->
  (500 <= AppContent.elapsed evs2)%nat ->
  AppContent.activeHits (AppContent.run (evs1 ++ evs2) AppContent.init) = ∅.
Proof.
  intros Hno Hlong. rewrite run_app.
  pose proof (removals_pending_run _ _ evs2 _ (removals_pending_reachable evs1))
    as (Hahead & _ & Hhit & _ & Hch).
  rewrite Hno in Hhit.
  apply elem_of_equiv_empty_L. intros id Hid.
  destruct (Hch id Hid) as [d Hd].
  pose proof (Hahead _ Hd) as Hlt. apply Hhit in Hd.
  rewrite run_now in Hlt. cbn in Hlt. lia.
Qed.

Lemma highlights_drain_witness :
  let evs1 := [AppContent.Hit "skill-0"; AppContent.Tick; AppContent.Hit "trace-1";
               AppContent.Hit "skill-0"] in
  let evs2 := AppContent.Emit (DOMRect.mk 100 100 20 20) "#00f3ff" "0.i"
              :: replicate 500 AppContent.Tick in
  existsb is_hit_call evs2 = false
  /\ (500 <= AppContent.elapsed evs2)%nat
  /\ AppContent.activeHits (AppContent.run (evs1 ++ evs2) AppContent.init) = ∅.
Proof.
  intros evs1 evs2.
  assert (H1 : existsb is_hit_call evs2 = false) by reflexivity.
  assert (H2 : (500 <= AppContent.elapsed evs2)%nat) by (by apply Nat.leb_le).
  split; [exact H1|]. split; [exact H2|].
  exact (highlights_drain evs1 evs2 H1 H2).
Defined.

(** ** Overlapping highlights *)

Lemma timer_stays_pending T a evs st :
  (T, a) ∈ AppContent.timers st ->
  (AppContent.now st + AppContent.elapsed evs < T)%nat ->
  (T, a) ∈ AppContent.timers (AppContent.run evs st).
Proof.
  revert st. induction evs as [|e evs IH]; intros st Hin Hlt; [done|].
  rewrite run_cons. apply IH.
  - destruct e; cbn [AppContent.step]; cbn; try done;
      try (apply elem_of_app; by left).
    apply tick_timers. split; [done|]. cbn. cbn in Hlt. lia.
  - rewrite step_now. destruct e; cbn in *; lia.
Qed.

(** X4. A second [hitTarget] call with an identifier, made while the
    highlight of a first one is on, does not prolong it: the removal the
    first call set takes the identifier out 500 ms after the first call,
    and it stays out until [hitTarget] is called with it again. *)
Theorem overlapping_hit_is_cut_short (id : string) (s : AppContent.AppState)
    (evs1 evs2 : list AppContent.Event) :
  (AppContent.elapsed evs1 < 500)%nat ->
  existsb (is_hit id) evs2 = false ->
  (500 <= AppContent.elapsed evs1 + AppContent.elapsed evs2)%nat ->
  id ∉ AppContent.activeHits
         (AppContent.run (evs1 ++ AppContent.Hit id :: evs2)
            (AppContent.hitTarget id s)).
Proof.
  intros Hshort Hno Hlong. rewrite run_app, run_cons.
  set (st1 := AppContent.run evs1 (AppContent.hitTarget id s)).
  assert (Hpending : (AppContent.now s + 500, AppContent.RemoveHit id)
                     ∈ AppContent.timers st1).
  { apply timer_stays_pending; cbn; [|lia]. apply elem_of_app. right. by left. }
  assert (Hnow1 : AppContent.now st1 = (AppContent.now s + AppContent.elapsed evs1)%nat).
  { subst st1. by rewrite run_now. }
  assert (Hinv : hit_expiring id (AppContent.now s + 500)
                   (AppContent.run evs2 (AppContent.step st1 (AppContent.Hit id)))).
  { apply (run_invariant (hit_expiring id (AppContent.now s + 500))
             (fun e => is_hit id e = false)).
    - apply hit_expiring_step.
    - apply Forall_forall. intros e He.
      destruct (is_hit id e) eqn:E; [|done].
      assert (existsb (is_hit id) evs2 = true); [|congruence].
      apply existsb_exists. exists e. split; [by apply list_elem_of_In | done].
    - left. cbn. split; [lia|]. apply elem_of_app. by left. }
  destruct Hinv as [[Hlt _]|[_ Hout]]; [|done].
  rewrite run_now, step_now in Hlt. cbn in Hlt. lia.
Qed.

Lemma overlapping_hit_is_cut_short_witness :
  let evs1 := replicate 300 AppContent.Tick in
  let evs2 := replicate 200 AppContent.Tick in
  (AppContent.elapsed evs1 < 500)%nat
  /\ existsb (is_hit "skill-0") evs2 = false
  /\ "skill-0" ∉ AppContent.activeHits
                   (AppContent.run (evs1 ++ AppContent.Hit "skill-0" :: evs2)
                      (AppContent.hitTarget "skill-0" AppContent.init)).
Proof.
  intros evs1 evs2.
  assert (H1 : (AppContent.elapsed evs1 < 500)%nat) by (by apply Nat.ltb_lt).
  assert (H2 : existsb (is_hit "skill-0") evs2 = false) by reflexivity.
  assert (H3 : (500 <= AppContent.elapsed evs1 + AppContent.elapsed evs2)%nat)
    by (by apply Nat.leb_le).
  split; [exact H1|]. split; [exact H2|].
  exact (overlapping_hit_is_cut_short "skill-0" AppContent.init evs1 evs2 H1 H2 H3).
Defined.

(** ** The renderer: picks, notifications and positions *)

Lemma register_each_prefix regs t type :
  category_of t type `prefix_of` category_of (register_each regs t) type.
Proof.
  revert t. induction regs as [|[type' ref] regs IH]; intros t; [done|].
  cbn. etrans; [apply (registerTarget_prefix type' type ref)|]. apply IH.
Qed.

Lemma indexOf_is_Some (xs : list nat) (x : nat) :
  x ∈ xs -> exists i, JS.indexOf xs x = Some i /\ (i < length xs)%nat.
Proof.
  intros Hx. destruct (JS.indexOf xs x) as [i|] eqn:E.
  - exists i. split; [done|]. apply indexOf_Some in E as [E _].
    by eapply lookup_lt_Some.
  - by apply indexOf_None in E.
Qed.

(** X5. An instance mounted while a category holds handles gets one of
    them, and its timer notifies it under an index below the size the
    category had at the mount, whichever targets are registered between
    the mount and the timer; an instance mounted while the category is
    empty holds no handle and its timer notifies nothing, whatever is
    registered later. *)
Theorem held_handle_is_notified (targets : TargetRegistry) (rnd : Q)
    (later : list (Category * Handle)) :
  let targets' := register_each later targets in
  ((0 <= rnd)%Q -> (rnd < 1)%Q -> skills targets ≠ [] ->
   exists h idx,
     SignalPacket.pick (skills targets) rnd = Some h
     /\ (idx < length (skills targets))%nat
     /\ skills targets !! idx = Some h
     /\ SignalPacket.t1 targets' (SignalPacket.pick (skills targets) rnd)
        = Some (SkillNode.id idx))
  /\ ((0 <= rnd)%Q -> (rnd < 1)%Q -> trace targets ≠ [] ->
      exists h idx,
        SignalPacket.pick (trace targets) rnd = Some h
        /\ (idx < length (trace targets))%nat
        /\ trace targets !! idx = Some h
        /\ SignalPacket.t2 targets' (SignalPacket.pick (trace targets) rnd)
           = Some (TimelineItem.id idx))
  /\ (skills targets = [] ->
      SignalPacket.t1 targets' (SignalPacket.pick (skills targets) rnd) = None)
  /\ (trace targets = [] ->
      SignalPacket.t2 targets' (SignalPacket.pick (trace targets) rnd) = None).
Proof.
  intros targets'. split_and!.
  - intros Hlo Hhi Hne.
    destruct (pick_in_range _ rnd Hlo Hhi Hne) as (i & h & Hi & Hh & Hp).
    destruct (indexOf_is_Some (skills targets) h) as (idx & Hidx & Hlt).
    { by eapply list_elem_of_lookup_2. }
    exists h, idx. rewrite Hp. split_and!; [done | done | |].
    + by apply indexOf_Some in Hidx as [? _].
    + unfold SignalPacket.t1.
      pose proof (indexOf_prefix _ _ _ _
                    (register_each_prefix later targets cat_skills) Hidx) as E.
      cbn [category_of] in E. fold targets' in E. by rewrite E.
  - intros Hlo Hhi Hne.
    destruct (pick_in_range _ rnd Hlo Hhi Hne) as (i & h & Hi & Hh & Hp).
    destruct (indexOf_is_Some (trace targets) h) as (idx & Hidx & Hlt).
    { by eapply list_elem_of_lookup_2. }
    exists h, idx. rewrite Hp. split_and!; [done | done | |].
    + by apply indexOf_Some in Hidx as [? _].
    + unfold SignalPacket.t2.
      pose proof (indexOf_prefix _ _ _ _
                    (register_each_prefix later targets cat_trace) Hidx) as E.
      cbn [category_of] in E. fold targets' in E. by rewrite E.
  - intros ->. by rewrite pick_empty.
  - intros ->. by rewrite pick_empty.
Qed.

Lemma held_handle_is_notified_witness :
  let targets := {| skills := [10; 11; 12]; trace := [] |} in
  let later := [(cat_skills, 13%nat); (cat_trace, 20%nat)] in
  skills targets ≠ []
  /\ (exists h idx,
        SignalPacket.pick (skills targets) (1 # 2) = Some h
        /\ (idx < length (skills targets))%nat
        /\ skills targets !! idx = Some h
        /\ SignalPacket.t1 (register_each later targets)
             (SignalPacket.pick (skills targets) (1 # 2))
           = Some (SkillNode.id idx))
  /\ SignalPacket.t2 (register_each later targets)
       (SignalPacket.pick (trace targets) (1 # 2)) = None.
Proof.
  intros targets later.
  pose proof (held_handle_is_notified targets (1 # 2) later) as (H1 & _ & _ & H4).
  assert (Hne : skills targets ≠ []) by (intros E; discriminate E).
  split; [exact Hne|]. split.
  - apply H1; [intros E; discriminate E | reflexivity | exact Hne].
  - apply H4. reflexivity.
Defined.

(** X6. Where a stage of the animation lands. A handle that is held and
    mounted is resolved to the centre of its rectangle in document
    coordinates and the stage is that point, unless the y coordinate of
    the centre is 0: then, as for a handle that is missing or not
    mounted, the stage is 800 below the stage before it. *)
Theorem stage_is_centre_or_fallback (signal : SignalContext.SignalType)
    (targets : TargetRegistry) (d : SignalPacket.Document) (rnd1 rnd2 : Q)
    (h : SignalPacket.Hooks) :
  let r := (SignalPacket.render signal targets d rnd1 rnd2 h).2 in
  let below p := SignalPacket.mkPoint (SignalPacket.x p) (SignalPacket.y p + 800) in
  (forall ref rect,
      SignalPacket.skillTarget r = Some ref ->
      SignalPacket.current d ref = Some rect ->
      (~ (SignalPacket.y (centre d rect) == 0)%Q ->
       SignalPacket.safeMid r = centre d rect)
      /\ ((SignalPacket.y (centre d rect) == 0)%Q ->
          SignalPacket.safeMid r = below (SignalPacket.start r)))
  /\ (forall ref rect,
        SignalPacket.traceTarget r = Some ref ->
        SignalPacket.current d ref = Some rect ->
        (~ (SignalPacket.y (centre d rect) == 0)%Q ->
         SignalPacket.safeEnd r = centre d rect)
        /\ ((SignalPacket.y (centre d rect) == 0)%Q ->
            SignalPacket.safeEnd r = below (SignalPacket.safeMid r))).
Proof.
  intros r below. subst r. cbn [snd SignalPacket.render
    SignalPacket.skillTarget SignalPacket.traceTarget SignalPacket.safeMid
    SignalPacket.safeEnd SignalPacket.start].
  split.
  - intros ref rect -> Hcur. cbn [SignalPacket.getPos]. rewrite Hcur.
    fold (centre d rect).
    destruct (Qeq_bool (SignalPacket.y (centre d rect)) 0) eqn:E.
    + apply Qeq_bool_iff in E. split; [by intros []|done].
    + apply Qeq_bool_neq in E. split; [done | by intros ?].
  - intros ref rect -> Hcur. cbn [SignalPacket.getPos]. rewrite Hcur.
    fold (centre d rect).
    destruct (Qeq_bool (SignalPacket.y (centre d rect)) 0) eqn:E.
    + apply Qeq_bool_iff in E. split; [by intros []|done].
    + apply Qeq_bool_neq in E. split; [done | by intros ?].
Qed.

Lemma stage_is_centre_or_fallback_witness :
  let d := SignalPacket.mkDocument 0 (-130)
             (fun _ => Some (DOMRect.mk 300 100 80 60)) in
  let r := (SignalPacket.render (SignalContext.mkSignal "i" 110 110 "#00f3ff")
              {| skills := [10]; trace := [20] |} d (1 # 2) (1 # 2)
              SignalPacket.fresh).2 in
  SignalPacket.traceTarget r = Some 20%nat
  /\ (SignalPacket.y (centre d (DOMRect.mk 300 100 80 60)) == 0)%Q
  /\ SignalPacket.safeEnd r
     = SignalPacket.mkPoint (SignalPacket.x (SignalPacket.safeMid r))
         (SignalPacket.y (SignalPacket.safeMid r) + 800).
Proof.
  intros d r.
  assert (H1 : SignalPacket.traceTarget r = Some 20%nat) by reflexivity.
  assert (H2 : (SignalPacket.y (centre d (DOMRect.mk 300 100 80 60)) == 0)%Q)
    by reflexivity.
  split; [exact H1|]. split; [exact H2|].
  exact (proj2 (proj2 (stage_is_centre_or_fallback
                         (SignalContext.mkSignal "i" 110 110 "#00f3ff")
                         {| skills := [10]; trace := [20] |} d (1 # 2) (1 # 2)
                         SignalPacket.fresh)
                  20%nat (DOMRect.mk 300 100 80 60) H1 eq_refl) H2).
Defined.

(** X7. With both categories empty at the first render the animation
    still has three stages, one below the other: the start point, the
    point 800 below it and the point 800 below that one. *)
Theorem stages_of_an_empty_registry (signal : SignalContext.SignalType)
    (targets : TargetRegistry) (d : SignalPacket.Document) (rnd1 rnd2 : Q) :
  skills targets = [] -> trace targets = [] ->
  let r := (SignalPacket.render signal targets d rnd1 rnd2 SignalPacket.fresh).2 in
  let x0 := (SignalContext.startX signal + SignalPacket.scrollX d)%Q in
  let y0 := (SignalContext.startY signal + SignalPacket.scrollY d)%Q in
  SignalPacket.left (SignalPacket.animate r) = [x0; x0; x0]
  /\ SignalPacket.top (SignalPacket.animate r) = [y0; y0 + 800; y0 + 800 + 800]%Q
  /\ (y0 < y0 + 800)%Q /\ (y0 + 800 < y0 + 800 + 800)%Q.
Proof.
  intros Hs Ht r x0 y0. subst r. cbn. rewrite Hs, Ht, !pick_empty. cbn.
  split_and!; [done | done | lra | lra].
Qed.

Lemma stages_of_an_empty_registry_witness :
  let d := SignalPacket.mkDocument 0 40 (fun _ => None) in
  let r := (SignalPacket.render (SignalContext.mkSignal "i" 110 110 "#00f3ff")
              empty_registry d (1 # 2) (1 # 2) SignalPacket.fresh).2 in
  SignalPacket.top (SignalPacket.animate r)
  = [110 + 40; 110 + 40 + 800; 110 + 40 + 800 + 800]%Q.
Proof.
  intros d r.
  apply (stages_of_an_empty_registry (SignalContext.mkSignal "i" 110 110 "#00f3ff")
           empty_registry d (1 # 2) (1 # 2)); reflexivity.
Defined.

(** X8. The point a handle is resolved to is a point of the document:
    scrolling the page, which moves the bounding rectangles one way and
    the scroll offsets the other, leaves it where it is. *)
Theorem getPos_unchanged_by_scrolling (d : SignalPacket.Document) (dx dy : Q)
    (ref : option Handle) :
  (SignalPacket.x (SignalPacket.getPos (scrolled d dx dy) ref)
   == SignalPacket.x (SignalPacket.getPos d ref))%Q
  /\ (SignalPacket.y (SignalPacket.getPos (scrolled d dx dy) ref)
      == SignalPacket.y (SignalPacket.getPos d ref))%Q.
Proof.
  destruct ref as [ref|]; cbn; [|split; reflexivity].
  destruct (SignalPacket.current d ref) as [rect|]; cbn; [|split; reflexivity].
  split; lra.
Qed.

(** ** The displays: highlight and coverage bins *)

Lemma skill_id_inj (i j : nat) : SkillNode.id i = SkillNode.id j -> i = j.
Proof.
  unfold SkillNode.id, JS.numberToString. intros H.
  apply (inj (String.app "skill-")) in H. by apply (inj pretty) in H.
Qed.

Lemma trace_id_inj (i j : nat) : TimelineItem.id i = TimelineItem.id j -> i = j.
Proof.
  unfold TimelineItem.id, JS.numberToString. intros H.
  apply (inj (String.app "trace-")) in H. by apply (inj pretty) in H.
Qed.

Lemma skill_id_not_trace_id (i j : nat) : SkillNode.id i ≠ TimelineItem.id j.
Proof. unfold SkillNode.id, TimelineItem.id. cbn. congruence. Qed.

(** X9. A hit carrying the identifier of a skill node highlights that
    node and changes the highlight of no other skill node and of no
    timeline item; a hit carrying the identifier of a timeline item
    highlights that item and changes no other display. *)
Theorem hit_highlights_one_display (i : nat) (s : AppContent.AppState) :
  let hits := AppContent.activeHits s in
  let after_skill :=
    AppContent.activeHits (AppContent.hitTarget (SkillNode.id i) s) in
  let after_trace :=
    AppContent.activeHits (AppContent.hitTarget (TimelineItem.id i) s) in
  SkillNode.isHit after_skill i = true
  /\ (forall j, j ≠ i ->
        SkillNode.isHit after_skill j = SkillNode.isHit hits j)
  /\ (forall j, TimelineItem.isHit after_skill j = TimelineItem.isHit hits j)
  /\ TimelineItem.isHit after_trace i = true
  /\ (forall j, j ≠ i ->
        TimelineItem.isHit after_trace j = TimelineItem.isHit hits j)
  /\ (forall j, SkillNode.isHit after_trace j = SkillNode.isHit hits j).
Proof.
  cbn. unfold SkillNode.isHit, TimelineItem.isHit. split_and!.
  - apply bool_decide_eq_true. apply elem_of_union_l. by apply elem_of_singleton.
  - intros j Hj. apply bool_decide_ext.
    rewrite elem_of_union, elem_of_singleton.
    split; [intros [E%skill_id_inj|] | intros; right]; done.
  - intros j. apply bool_decide_ext.
    rewrite elem_of_union, elem_of_singleton.
    split; [intros [E|] | intros; right]; [|done..].
    symmetry in E. by apply skill_id_not_trace_id in E.
  - apply bool_decide_eq_true. apply elem_of_union_l. by apply elem_of_singleton.
  - intros j Hj. apply bool_decide_ext.
    rewrite elem_of_union, elem_of_singleton.
    split; [intros [E%trace_id_inj|] | intros; right]; done.
  - intros j. apply bool_decide_ext.
    rewrite elem_of_union, elem_of_singleton.
    split; [intros [E|] | intros; right]; [|done..].
    by apply skill_id_not_trace_id in E.
Qed.

Lemma hit_highlights_one_display_witness :
  let after :=
    AppContent.activeHits (AppContent.hitTarget (SkillNode.id 2) AppContent.init) in
  SkillNode.isHit after 2 = true
  /\ SkillNode.isHit after 3
     = SkillNode.isHit (AppContent.activeHits AppContent.init) 3.
Proof.
  intros after.
  pose proof (hit_highlights_one_display 2 AppContent.init) as (H1 & H2 & _).
  split; [exact H1|]. apply H2. intros E. discriminate E.
Defined.

Ltac bins_arith :=
  unfold SkillNodeBins.bins in *;
  change (inject_Z (Z.of_nat 16)) with 16%Q in *;
  change (inject_Z 16) with 16%Q in *; unfold Qdiv in *;
  change (/ 100)%Q with (1 # 100)%Q in *; lra.

Lemma cells_upto (z : Z) (n : nat) :
  map (fun i => (Z.of_nat i <? z)%Z) (seq 0 n)
  = replicate (Z.to_nat (Z.max 0 (Z.min (Z.of_nat n) z))) true
    ++ replicate (n - Z.to_nat (Z.max 0 (Z.min (Z.of_nat n) z))) false.
Proof.
  induction n as [|n IH].
  { change (Z.of_nat 0) with 0%Z.
    replace (Z.to_nat (Z.max 0 (Z.min 0 z))) with 0%nat by lia. done. }
  rewrite seq_S, map_app, IH. cbn [map Nat.add].
  destruct (Z.ltb_spec (Z.of_nat n) z) as [Hlt|Hge].
  - replace (Z.to_nat (Z.max 0 (Z.min (Z.of_nat n) z))) with n by lia.
    replace (Z.to_nat (Z.max 0 (Z.min (Z.of_nat (S n)) z))) with (S n) by lia.
    rewrite !Nat.sub_diag. change (replicate 0 false) with (@nil bool).
    rewrite !app_nil_r. symmetry. apply replicate_S_end.
  - replace (Z.to_nat (Z.max 0 (Z.min (Z.of_nat (S n)) z)))
      with (Z.to_nat (Z.max 0 (Z.min (Z.of_nat n) z))) by lia.
    set (k := Z.to_nat (Z.max 0 (Z.min (Z.of_nat n) z))).
    assert (Hk : (k <= n)%nat) by (subst k; lia).
    replace (S n - k)%nat with (S (n - k)) by lia.
    by rewrite replicate_S_end, app_assoc.
Qed.

(** X10. The coverage row of a skill node has sixteen cells, the filled
    ones first. For a level from 0 to 100 the number of filled cells is
    [filledBins], which lies between 0 and 16, does not fall when the
    level rises, and is 16 only at the level 100; a level above 100
    fills all cells, a negative one none. *)
Theorem coverage_cells (level : Q) :
  let filled := Z.to_nat (Z.max 0 (Z.min 16 (SkillNodeBins.filledBins level))) in
  SkillNodeBins.cells level
  = replicate filled true ++ replicate (16 - filled) false
  /\ ((0 <= level)%Q -> (level <= 100)%Q ->
      (0 <= SkillNodeBins.filledBins level <= 16)%Z
      /\ (SkillNodeBins.filledBins level = 16%Z <-> (level == 100)%Q))
  /\ (forall level', (level <= level')%Q ->
        (SkillNodeBins.filledBins level <= SkillNodeBins.filledBins level')%Z)
  /\ ((100 <= level)%Q -> SkillNodeBins.cells level = replicate 16 true)
  /\ ((level < 0)%Q -> SkillNodeBins.cells level = replicate 16 false).
Proof.
  assert (Hcells : forall l,
    SkillNodeBins.cells l
    = replicate (Z.to_nat (Z.max 0 (Z.min 16 (SkillNodeBins.filledBins l)))) true
      ++ replicate (16 - Z.to_nat (Z.max 0 (Z.min 16 (SkillNodeBins.filledBins l))))
           false).
  { intros l. unfold SkillNodeBins.cells.
    apply (cells_upto (SkillNodeBins.filledBins l) 16). }
  assert (Hmono : forall l l', (l <= l')%Q ->
    (SkillNodeBins.filledBins l <= SkillNodeBins.filledBins l')%Z).
  { intros l l' Hle. unfold SkillNodeBins.filledBins, JS.floor.
    apply Qfloor_resp_le. bins_arith. }
  assert (H100 : SkillNodeBins.filledBins 100 = 16%Z) by reflexivity.
  assert (H0 : SkillNodeBins.filledBins 0 = 0%Z) by reflexivity.
  cbv zeta. split_and!.
  - apply Hcells.
  - intros Hlo Hhi.
    pose proof (Hmono _ _ Hlo) as H1. pose proof (Hmono _ _ Hhi) as H2.
    rewrite H0 in H1. rewrite H100 in H2. split; [lia|]. split.
    + intros E. unfold SkillNodeBins.filledBins, JS.floor in E.
      pose proof (Qfloor_le (level / 100 * inject_Z (Z.of_nat SkillNodeBins.bins)))
        as Hf.
      rewrite E in Hf. bins_arith.
    + intros E. unfold SkillNodeBins.filledBins, JS.floor.
      rewrite <- H100. unfold SkillNodeBins.filledBins, JS.floor.
      apply Z.le_antisymm; apply Qfloor_resp_le; bins_arith.
  - apply Hmono.
  - intros Hge. rewrite Hcells. pose proof (Hmono _ _ Hge) as H. rewrite H100 in H.
    replace (Z.to_nat (Z.max 0 (Z.min 16 (SkillNodeBins.filledBins level))))
      with 16%nat by lia.
    cbn [Nat.sub replicate]. by rewrite app_nil_r.
  - intros Hneg. rewrite Hcells.
    assert (SkillNodeBins.filledBins level <= 0)%Z as H.
    { rewrite <- H0. apply Hmono. lra. }
    replace (Z.to_nat (Z.max 0 (Z.min 16 (SkillNodeBins.filledBins level))))
      with 0%nat by lia.
    reflexivity.
Qed.

Lemma coverage_cells_witness :
  (0 <= 90)%Q /\ (90 <= 100)%Q
  /\ (0 <= SkillNodeBins.filledBins 90 <= 16)%Z
  /\ SkillNodeBins.cells 90 = replicate 14 true ++ replicate 2 false.
Proof.
  pose proof (coverage_cells 90) as (H1 & H2 & _).
  assert (Hlo : (0 <= 90)%Q) by (intros E; discriminate E).
  assert (Hhi : (90 <= 100)%Q) by (intros E; discriminate E).
  split; [exact Hlo|]. split; [exact Hhi|]. split.
  - exact (proj1 (H2 Hlo Hhi)).
  - exact H1.
Defined.

(** ** The terminal: history, effects and names outside of the table *)

Lemma theme_effect_elem (p : Terminal.Props) (t : Theme) (eff : Terminal.Effect) :
  eff ∈ Terminal.theme_effect p t ->
  eff = Terminal.ThemeChange t /\ Terminal.onThemeChange p = true
  /\ Terminal.theme_effect p t = [eff].
Proof.
  unfold Terminal.theme_effect. destruct (Terminal.onThemeChange p).
  - intros ->%list_elem_of_singleton. done.
  - by intros ?%elem_of_nil.
Qed.

Lemma is_string_eq (a : option string) (v : string) :
  is_string a v = true -> a = Some v.
Proof.
  destruct a as [x|]; cbn; [|done]. by intros ->%String.eqb_eq.
Qed.

(** X11. A terminal submission that is not blank either empties the
    history, when its command is [clear] in any case and with any
    arguments, or appends exactly two lines to it: the input as it was
    typed, then one output line. In both cases the input line is
    emptied. *)
Theorem terminal_history_growth (p : Terminal.Props) (s : Terminal.State) :
  all_white (Terminal.input s) = false ->
  let r := Terminal.handleCommand p s in
  Terminal.input r.1 = EmptyString
  /\ (command_of (Terminal.input s) = "clear" ->
      r = (Terminal.mkState [] "", []))
  /\ (command_of (Terminal.input s) ≠ "clear" ->
      exists out,
        Terminal.history r.1
        = Terminal.history s
          ++ [Terminal.mkLine Terminal.input_line (Terminal.Text (Terminal.input s));
              Terminal.mkLine Terminal.output_line out]).
Proof.
  intros Hnb r. subst r. rewrite handleCommand_unfold by done. cbv zeta.
  split_and!.
  - repeat case_match; done.
  - by intros ->.
  - intros Hne. apply String.eqb_neq in Hne. rewrite Hne.
    repeat case_match; cbn [fst Terminal.reply Terminal.history]; by eexists.
Qed.

Lemma terminal_history_growth_witness :
  all_white "  CLEAR  now" = false
  /\ Terminal.handleCommand (Terminal.mkProps false false)
       (Terminal.mkState (Terminal.history Terminal.initial) "  CLEAR  now")
     = (Terminal.mkState [] "", []).
Proof.
  split; [reflexivity|].
  apply (proj1 (proj2 (terminal_history_growth (Terminal.mkProps false false)
                         (Terminal.mkState (Terminal.history Terminal.initial)
                                           "  CLEAR  now")
                         eq_refl))).
  reflexivity.
Defined.

(** X12. What a terminal submission does besides writing to its history.
    It has at most one effect: a change of theme, only when the parent
    passed [onThemeChange], the command is [theme] and its argument is
    silicon, dark (for the default theme) or light; or the download of
    the resume text, only when the command is [resume]. Without
    [onThemeChange] a [theme] command changes nothing. *)
Theorem terminal_effects (p : Terminal.Props) (s : Terminal.State)
    (eff : Terminal.Effect) :
  eff ∈ (Terminal.handleCommand p s).2 ->
  (Terminal.handleCommand p s).2 = [eff]
  /\ ((exists t,
         eff = Terminal.ThemeChange t
         /\ Terminal.onThemeChange p = true
         /\ command_of (Terminal.input s) = "theme"
         /\ argument_of 1 (Terminal.input s)
            = Some match t with
                   | theme_silicon => "silicon"
                   | theme_default => "dark"
                   | theme_light => "light"
                   end)
      \/ (eff = Terminal.Download "Mishat_Hassan_Resume.txt"
          /\ command_of (Terminal.input s) = "resume")).
Proof.
  destruct (all_white (Terminal.input s)) eqn:Hnb.
  { unfold Terminal.handleCommand.
    rewrite (proj2 (trim_empty_iff _) Hnb). cbn. by intros ?%elem_of_nil. }
  rewrite handleCommand_unfold by done. cbv zeta.
  destruct (String.eqb (command_of (Terminal.input s)) "clear") eqn:E1;
    [by intros ?%elem_of_nil|].
  destruct (String.eqb (command_of (Terminal.input s)) "theme") eqn:E2.
  - apply String.eqb_eq in E2.
    destruct (is_string _ "silicon") eqn:A1; [|
    destruct (is_string _ "dark") eqn:A2; [|
    destruct (is_string _ "light") eqn:A3 ]]; cbn [snd].
    + intros (-> & Hp & ->)%theme_effect_elem. split; [done|]. left.
      exists theme_silicon. by apply is_string_eq in A1.
    + intros (-> & Hp & ->)%theme_effect_elem. split; [done|]. left.
      exists theme_default. by apply is_string_eq in A2.
    + intros (-> & Hp & ->)%theme_effect_elem. split; [done|]. left.
      exists theme_light. by apply is_string_eq in A3.
    + by intros ?%elem_of_nil.
  - destruct (String.eqb (command_of (Terminal.input s)) "resume") eqn:E3; cbn [snd].
    + apply String.eqb_eq in E3. intros ->%list_elem_of_singleton.
      split; [done|]. by right.
    + by intros ?%elem_of_nil.
Qed.

Lemma terminal_effects_witness :
  let p := Terminal.mkProps true true in
  let s := Terminal.mkState [] "theme DARK" in
  Terminal.ThemeChange theme_default ∈ (Terminal.handleCommand p s).2
  /\ (Terminal.handleCommand p s).2 = [Terminal.ThemeChange theme_default].
Proof.
  intros p s.
  assert (H : Terminal.ThemeChange theme_default ∈ (Terminal.handleCommand p s).2).
  { apply list_elem_of_singleton. reflexivity. }
  split; [exact H|].
  exact (proj1 (terminal_effects p s (Terminal.ThemeChange theme_default) H)).
Defined.

(** X13. Names outside of the terminal's table. A command that is none
    of clear, theme and resume, no key of the table and neither
    constructor nor __proto__ is answered bash: <command>: command not
    found, the command in lower case. The commands constructor and
    __proto__ are found in the table although they are no keys of it:
    the output line holds the member the table inherits, not a text,
    and no command-not-found line is written. *)
Theorem terminal_names_outside_table (p : Terminal.Props) (s : Terminal.State) :
  let cmd := command_of (Terminal.input s) in
  (all_white (Terminal.input s) = false ->
   cmd ∉ ["clear"; "theme"; "resume"; "help"; "whoami"; "skills"; "contact";
          "run_test"; "constructor"; "__proto__"] ->
   Terminal.handleCommand p s
   = (Terminal.reply s
        (Terminal.Text ("bash: " +:+ cmd +:+ ": command not found")), []))
  /\ (cmd = "constructor" \/ cmd = "__proto__" ->
      Terminal.handleCommand p s
      = (Terminal.reply s (Terminal.Inherited cmd), [])).
Proof.
  intros cmd. split.
  - apply terminal_unknown.
  - intros Hcmd.
    assert (Hnb : all_white (Terminal.input s) = false).
    { apply (command_not_blank _ cmd); [done|]. by destruct Hcmd as [-> | ->]. }
    rewrite handleCommand_unfold by done. cbv zeta. fold cmd.
    by destruct Hcmd as [-> | ->].
Qed.

Lemma terminal_names_outside_table_witness :
  Terminal.handleCommand (Terminal.mkProps false false)
    (Terminal.mkState [] " Constructor x")
  = (Terminal.mkState
       [Terminal.mkLine Terminal.input_line (Terminal.Text " Constructor x");
        Terminal.mkLine Terminal.output_line (Terminal.Inherited "constructor")]
       "", []).
Proof.
  apply (proj2 (terminal_names_outside_table (Terminal.mkProps false false)
                  (Terminal.mkState [] " Constructor x"))).
  left. reflexivity.
Defined.

(** ** The palette: what a submission keeps, names outside of the table,
    aliases *)

Lemma palette_handler_closes (cmd : string) (h : VimCommandPalette.CommandHandler)
    (args : list string) :
  VimCommandPalette.COMMANDS !! cmd = Some h ->
  VimCommandPalette.Close ∈ VimCommandPalette.effects (h args) ->
  VimCommandPalette.message (h args) = None.
Proof.
  intros H%elem_of_list_to_map_2.
  repeat (apply elem_of_cons in H as [H|H];
          [injection H as -> ->; cbn; try done|]).
  all: try by apply elem_of_nil in H.
  all: try (intros Hc; apply list_elem_of_In in Hc; cbn in Hc;
            by intuition discriminate).
  all: unfold VimCommandPalette.theme; repeat case_match; cbn;
       intros Hc; apply list_elem_of_In in Hc; cbn in Hc;
       by intuition discriminate.
Qed.

(** X14. What a palette submission keeps. A blank input closes the
    palette and leaves the typed text and the output as they are. A
    submission that is not blank and returns empties the input. No
    submission both closes the palette and writes an output: when it
    closes, the output is the one shown before. *)
Theorem palette_submit_keeps (s s' : VimCommandPalette.State)
    (effs : list VimCommandPalette.Effect) :
  VimCommandPalette.handleSubmit s = VimCommandPalette.Returns s' effs ->
  (all_white (VimCommandPalette.input s) = true ->
   s' = s /\ effs = [VimCommandPalette.Close])
  /\ (all_white (VimCommandPalette.input s) = false ->
      VimCommandPalette.input s' = EmptyString)
  /\ (VimCommandPalette.Close ∈ effs ->
      VimCommandPalette.output s' = VimCommandPalette.output s).
Proof.
  destruct (all_white (VimCommandPalette.input s)) eqn:Hnb.
  - unfold VimCommandPalette.handleSubmit. cbv zeta.
    rewrite (proj2 (trim_empty_iff _) Hnb). cbn.
    intros [= <- <-]. done.
  - rewrite handleSubmit_unfold by done. cbv zeta.
    unfold VimCommandPalette.lookup.
    destruct (VimCommandPalette.COMMANDS !! command_of (VimCommandPalette.input s))
      as [h|] eqn:Hlk.
    + intros [= <- <-]. split_and!; [done | done |].
      intros Hc. cbn. by rewrite (palette_handler_closes _ _ _ Hlk Hc).
    + repeat case_match; try done; intros [= <- <-];
        (split_and!; [done | done | by intros ?%elem_of_nil]).
Qed.

Lemma palette_submit_keeps_witness :
  let s := VimCommandPalette.mkState " SKILLS " (Some "Downloading resume...") in
  exists s',
    VimCommandPalette.handleSubmit s
    = VimCommandPalette.Returns s'
        [VimCommandPalette.ScrollIntoView "coverage"; VimCommandPalette.Close]
    /\ VimCommandPalette.input s' = EmptyString
    /\ VimCommandPalette.output s' = Some "Downloading resume...".
Proof.
  intros s. eexists. split; [reflexivity|].
  pose proof (palette_submit_keeps s _ _ eq_refl) as (_ & H2 & H3).
  split; [apply H2; reflexivity|].
  apply H3. apply list_elem_of_further. apply list_elem_of_singleton. reflexivity.
Defined.

(** X15. Names outside of the palette's table. A command that is no key
    of the table and neither constructor nor __proto__ sets the output
    E492: Not a command: <command>, the command in lower case, empties
    the input and has no effect. The command constructor is found in
    the table although it is no key of it: the call returns, the input
    is emptied, the output stays and nothing else happens. The command
    __proto__ finds a member that cannot be called: the handler throws
    and the input is not emptied. *)
Theorem palette_names_outside_table (s : VimCommandPalette.State) :
  let cmd := command_of (VimCommandPalette.input s) in
  (all_white (VimCommandPalette.input s) = false ->
   cmd ∉ ["help"; "q"; "quit"; "wq"; "x"; "theme"; "colorscheme"; "colo";
          "top"; "0"; "$"; "bottom"; "contact"; "skills"; "resume";
          "verification"; "trace"; "constructor"; "__proto__"] ->
   VimCommandPalette.handleSubmit s
   = VimCommandPalette.Returns
       {| VimCommandPalette.input := "";
          VimCommandPalette.output := Some ("E492: Not a command: " +:+ cmd) |} [])
  /\ (cmd = "constructor" ->
      VimCommandPalette.handleSubmit s
      = VimCommandPalette.Returns
          {| VimCommandPalette.input := "";
             VimCommandPalette.output := VimCommandPalette.output s |} [])
  /\ (cmd = "__proto__" ->
      VimCommandPalette.handleSubmit s = VimCommandPalette.Throws).
Proof.
  intros cmd. split_and!.
  - intros Hnb Hcmd. rewrite handleSubmit_unfold by done. cbv zeta. fold cmd.
    unfold VimCommandPalette.lookup.
    assert (Hlk : VimCommandPalette.COMMANDS !! cmd = None).
    { apply not_elem_of_list_to_map_1. cbn [fmap list_fmap fst].
      intros Hin. apply Hcmd.
      repeat (apply elem_of_cons in Hin as [->|Hin];
              [repeat first [apply list_elem_of_here | apply list_elem_of_further]|]).
      by apply elem_of_nil in Hin. }
    rewrite Hlk.
    rewrite !not_elem_of_cons in Hcmd.
    destruct Hcmd as (_&_&_&_&_&_&_&_&_&_&_&_&_&_&_&_&_& H1 & H2 & _).
    by rewrite !(proj2 (String.eqb_neq _ _)).
  - intros Hcmd.
    assert (Hnb : all_white (VimCommandPalette.input s) = false).
    { apply (command_not_blank _ cmd); [done|]. by rewrite Hcmd. }
    rewrite handleSubmit_unfold by done. cbv zeta. fold cmd. by rewrite Hcmd.
  - intros Hcmd.
    assert (Hnb : all_white (VimCommandPalette.input s) = false).
    { apply (command_not_blank _ cmd); [done|]. by rewrite Hcmd. }
    rewrite handleSubmit_unfold by done. cbv zeta. fold cmd. by rewrite Hcmd.
Qed.

Lemma palette_names_outside_table_witness :
  VimCommandPalette.handleSubmit (VimCommandPalette.mkState "__PROTO__" None)
  = VimCommandPalette.Throws
  /\ VimCommandPalette.handleSubmit
       (VimCommandPalette.mkState "Constructor" (Some "ABSTRACTION LAYER 0"))
     = VimCommandPalette.Returns
         (VimCommandPalette.mkState "" (Some "ABSTRACTION LAYER 0")) [].
Proof.
  split.
  - apply (proj2 (proj2 (palette_names_outside_table
                           (VimCommandPalette.mkState "__PROTO__" None)))).
    reflexivity.
  - apply (proj1 (proj2 (palette_names_outside_table
                           (VimCommandPalette.mkState "Constructor"
                              (Some "ABSTRACTION LAYER 0"))))).
    reflexivity.
Defined.

(** X16. The aliases of the palette. With the same arguments,
    colorscheme and colo do what theme does, quit, wq and x what q
    does, 0 what top does and bottom what $ does: the same output, the
    same effects in the same order. *)
Theorem palette_aliases (out : option string) (i1 i2 : string) :
  (command_of i1, command_of i2)
  ∈ [("colorscheme", "theme"); ("colo", "theme"); ("quit", "q"); ("wq", "q");
     ("x", "q"); ("0", "top"); ("bottom", "$")] ->
  tail (tokens i1) = tail (tokens i2) ->
  VimCommandPalette.handleSubmit (VimCommandPalette.mkState i1 out)
  = VimCommandPalette.handleSubmit (VimCommandPalette.mkState i2 out).
Proof.
  intros Hin Hargs.
  assert (Hnb : all_white i1 = false /\ all_white i2 = false).
  { split; [apply (command_not_blank _ (command_of i1))
           | apply (command_not_blank _ (command_of i2))]; try done;
      intros E; rewrite E in Hin;
      repeat (apply elem_of_cons in Hin as [Hin|Hin]; [by injection Hin|]);
      by apply elem_of_nil in Hin. }
  destruct Hnb as [Hnb1 Hnb2].
  rewrite !handleSubmit_unfold by done. cbv zeta.
  cbn [VimCommandPalette.input VimCommandPalette.output]. rewrite Hargs.
  repeat (apply elem_of_cons in Hin as [Hin|Hin];
          [injection Hin as -> ->; reflexivity|]).
  by apply elem_of_nil in Hin.
Qed.

Lemma palette_aliases_witness :
  VimCommandPalette.handleSubmit (VimCommandPalette.mkState "colo  light" None)
  = VimCommandPalette.handleSubmit (VimCommandPalette.mkState " THEME light " None).
Proof.
  apply palette_aliases.
  - apply list_elem_of_further. apply list_elem_of_here.
  - reflexivity.
Defined.

(** ** Keyboard navigation *)

Lemma handleKeyDown_other (e : VimNavigation.KeyboardEvent) (now : Z)
    (st : VimNavigation.State) :
  plain_g e = false ->
  (VimNavigation.handleKeyDown e now st).1 = st
  /\ VimNavigation.ScrollToTop ∉ (VimNavigation.handleKeyDown e now st).2.
Proof.
  unfold plain_g, VimNavigation.handleKeyDown. intros H.
  destruct (String.eqb (VimNavigation.tagName e) "INPUT"
            || String.eqb (VimNavigation.tagName e) "TEXTAREA");
    [split; [done | apply not_elem_of_nil]|].
  destruct (VimNavigation.metaKey e || VimNavigation.ctrlKey e
            || VimNavigation.altKey e);
    [split; [done | apply not_elem_of_nil]|].
  rewrite !andb_true_r in H. rewrite H.
  repeat case_match; cbn [fst snd]; (split; [done|]);
    rewrite ?not_elem_of_cons; split_and?; try done; apply not_elem_of_nil.
Qed.

Lemma handleKeyDown_g (e : VimNavigation.KeyboardEvent) (now : Z)
    (st : VimNavigation.State) :
  plain_g e = true ->
  VimNavigation.handleKeyDown e now st
  = if ((if (now - VimNavigation.lastKeyTime st <? 500)%Z
         then (VimNavigation.gCount st + 1)%Z else 1%Z) =? 2)%Z
    then ({| VimNavigation.lastKeyTime := now; VimNavigation.gCount := 0 |},
          [VimNavigation.ScrollToTop])
    else ({| VimNavigation.lastKeyTime := now;
             VimNavigation.gCount :=
               if (now - VimNavigation.lastKeyTime st <? 500)%Z
               then (VimNavigation.gCount st + 1)%Z else 1%Z |}, []).
Proof.
  unfold plain_g, VimNavigation.handleKeyDown.
  intros [[Hg Ht%negb_true_iff]%andb_true_iff Hm%negb_true_iff]%andb_true_iff.
  rewrite Ht, Hm. apply String.eqb_eq in Hg. rewrite Hg. reflexivity.
Qed.

Lemma run_keys_snoc keys k st :
  VimNavigation.run (keys ++ [k]) st
  = let acc := VimNavigation.run keys st in
    let r := VimNavigation.handleKeyDown k.1 k.2 acc.1 in
    (r.1, acc.2 ++ r.2).
Proof. unfold VimNavigation.run. by rewrite foldl_app. Qed.

Lemma gCount_invariant keys :
  let st := (VimNavigation.run keys VimNavigation.initial).1 in
  VimNavigation.gCount st = 0%Z \/ VimNavigation.gCount st = 1%Z.
Proof.
  induction keys as [|k keys IH] using rev_ind; [by left|].
  rewrite run_keys_snoc. cbv zeta. cbn [fst].
  destruct (plain_g k.1) eqn:Hg.
  - rewrite handleKeyDown_g by done. cbv zeta in IH.
    repeat case_match; cbn [fst VimNavigation.gCount]; lia.
  - by rewrite (proj1 (handleKeyDown_other _ _ _ Hg)).
Qed.

(** X17. The pair of g keys. Counting from the start of the session the
    counter of the handler is 0 or 1 after every key. A key scrolls to
    the top exactly when it is a g outside of a text field and without
    a modifier, the counter is 1 and less than 500 ms have passed since
    the g before it. Every other key leaves the counter and the time of
    the last g as they are, so keys pressed between the two g do not
    break the pair. *)
Theorem double_g_scrolls_to_top
    (keys : list (VimNavigation.KeyboardEvent * Z))
    (e : VimNavigation.KeyboardEvent) (now : Z) :
  let st := (VimNavigation.run keys VimNavigation.initial).1 in
  (VimNavigation.gCount st = 0%Z \/ VimNavigation.gCount st = 1%Z)
  /\ (VimNavigation.ScrollToTop ∈ (VimNavigation.handleKeyDown e now st).2
      <-> plain_g e = true /\ VimNavigation.gCount st = 1%Z
          /\ (now - VimNavigation.lastKeyTime st < 500)%Z)
  /\ (plain_g e = false -> (VimNavigation.handleKeyDown e now st).1 = st)
  /\ (plain_g e = true ->
      VimNavigation.lastKeyTime (VimNavigation.handleKeyDown e now st).1 = now).
Proof.
  intros st. pose proof (gCount_invariant keys) as Hinv. fold st in Hinv.
  cbv zeta in Hinv. split_and!.
  - exact Hinv.
  - destruct (plain_g e) eqn:Hg.
    + rewrite handleKeyDown_g by done.
      destruct (Z.ltb_spec (now - VimNavigation.lastKeyTime st) 500) as [Hlt|Hge];
        destruct Hinv as [E|E]; rewrite E; simpl;
        rewrite ?elem_of_nil, ?list_elem_of_singleton;
        (split; [intros; split_and?; (done || lia)
                | intros (_ & ? & ?); (done || lia)]).
    + destruct (handleKeyDown_other e now st Hg) as [_ Hn].
      split; [done | by intros [? _]].
  - intros Hg. apply (handleKeyDown_other e now st Hg).
  - intros Hg. rewrite handleKeyDown_g by done. by case_match.
Qed.

Lemma double_g_scrolls_to_top_witness :
  let g := VimNavigation.mkKey "g" "BODY" false false false in
  let j := VimNavigation.mkKey "j" "BODY" false false false in
  let keys := [(g, 1000%Z); (j, 1100%Z); (j, 1200%Z)] in
  let st := (VimNavigation.run keys VimNavigation.initial).1 in
  plain_g g = true /\ VimNavigation.gCount st = 1%Z
  /\ (1400 - VimNavigation.lastKeyTime st < 500)%Z
  /\ VimNavigation.ScrollToTop ∈ (VimNavigation.handleKeyDown g 1400 st).2.
Proof.
  intros g j keys st.
  assert (H1 : plain_g g = true) by reflexivity.
  assert (H2 : VimNavigation.gCount st = 1%Z) by reflexivity.
  assert (H3 : (1400 - VimNavigation.lastKeyTime st < 500)%Z) by reflexivity.
  split; [exact H1|]. split; [exact H2|]. split; [exact H3|].
  apply (proj2 (proj1 (proj2 (double_g_scrolls_to_top keys g 1400)))).
  split; [exact H1|]. split; [exact H2 | exact H3].
Defined.

(** ** The theme effect *)

(** X18. After the theme effect the body carries the class of the
    current theme and not the class of the other one, none of the two
    for the default theme, whatever it carried before; every other
    class is as it was. *)
Theorem theme_classes (theme : Theme) (classList : gset string) (c : string) :
  let after := ThemeEffect.effect theme classList in
  ("theme-silicon" ∈ after <-> theme = theme_silicon)
  /\ ("theme-light" ∈ after <-> theme = theme_light)
  /\ (c ≠ "theme-silicon" -> c ≠ "theme-light" ->
      (c ∈ after <-> c ∈ classList)).
Proof.
  unfold ThemeEffect.effect. cbv zeta.
  destruct theme; rewrite ?elem_of_union, ?elem_of_difference, ?elem_of_singleton;
    split_and!; try (intros ? ?);
    rewrite ?elem_of_union, ?elem_of_difference, ?elem_of_singleton;
    split; intros; try done; try (intuition congruence).
Qed.

Lemma theme_classes_witness :
  let after := ThemeEffect.effect theme_light {[ "theme-silicon"; "dark" ]} in
  "theme-light" ∈ after /\ ("theme-silicon" ∉ after) /\ "dark" ∈ after.
Proof.
  intros after.
  pose proof (theme_classes theme_light {[ "theme-silicon"; "dark" ]} "dark")
    as (H1 & H2 & H3).
  split; [by apply H2|]. split.
  - intros H%H1. discriminate H.
  - apply H3; [intros E; discriminate E | intros E; discriminate E |].
    apply elem_of_union_r. by apply elem_of_singleton.
Defined.

(** ** The waveform view *)

Lemma Qfloor_spec (x : Q) (k : Z) :
  Qfloor x = k <-> (inject_Z k <= x)%Q /\ (x < inject_Z k + 1)%Q.
Proof.
  split.
  - intros <-. split; [apply Qfloor_le|].
    pose proof (Qlt_floor x) as H. rewrite inject_Z_plus in H. exact H.
  - intros [Hlo Hhi]. apply Z.le_antisymm.
    + apply Z.lt_succ_r. rewrite Zlt_Qlt. unfold Z.succ. rewrite inject_Z_plus.
      eapply Qle_lt_trans; [apply Qfloor_le | exact Hhi].
    + rewrite <- (Qfloor_Z k). by apply Qfloor_resp_le.
Qed.

Lemma Math_round_spec (x : Q) (k : Z) :
  Math_round x = k
  <-> (inject_Z k - (1 # 2) <= x)%Q /\ (x < inject_Z k + (1 # 2))%Q.
Proof.
  unfold Math_round. rewrite Qfloor_spec. split; intros [? ?]; split; lra.
Qed.

Lemma fraction_of_year (x : Q) :
  (0 <= x - inject_Z (JS.floor x))%Q /\ (x - inject_Z (JS.floor x) < 1)%Q.
Proof.
  destruct (proj1 (Qfloor_spec x (Qfloor x)) eq_refl) as [H1 H2].
  unfold JS.floor. split; lra.
Qed.

(** X19. The text of a cursor time, a decimal year from 2017 to 2026:
    one of the twelve month names, a space and the year rounded down,
    which is a year from 2017 to 2026. With the months passed since the
    start of the year, 12 times the fraction of the year, the month is
    the first one below one and a half months and the one at index k,
    from 1 to 11, from k and a half months up to k and three halves. *)
Theorem formatDecimalYear_names_a_month (decimalYear : Q) :
  (2017 <= decimalYear)%Q -> (decimalYear <= 2026)%Q ->
  let i := WaveformViewer.safeMonthIndex decimalYear in
  let months := ((decimalYear - inject_Z (JS.floor decimalYear)) * 12)%Q in
  (0 <= i <= 11)%Z
  /\ (2017 <= JS.floor decimalYear <= 2026)%Z
  /\ (exists m,
        WaveformViewer.MONTH_NAMES !! Z.to_nat i = Some m
        /\ WaveformViewer.formatDecimalYear decimalYear
           = Some (m +:+ " " +:+ pretty (JS.floor decimalYear)))
  /\ (i = 0%Z <-> (months < 3 # 2)%Q)
  /\ (forall k, (1 <= k <= 11)%Z ->
        (i = k <-> (inject_Z k + (1 # 2) <= months)%Q
                   /\ (months < inject_Z k + (3 # 2))%Q)).
Proof.
  intros Hlo Hhi i months.
  assert (Hi : (0 <= i <= 11)%Z) by (subst i; unfold WaveformViewer.safeMonthIndex; lia).
  assert (Hy : (2017 <= JS.floor decimalYear <= 2026)%Z).
  { unfold JS.floor. split.
    - rewrite <- (Qfloor_Z 2017). by apply Qfloor_resp_le.
    - rewrite <- (Qfloor_Z 2026). by apply Qfloor_resp_le. }
  destruct (fraction_of_year decimalYear) as [Hf0 Hf1].
  set (r := Math_round months).
  destruct (proj1 (Math_round_spec months r) eq_refl) as [Hr1 Hr2].
  assert (Hr : (0 <= r <= 12)%Z).
  { split.
    - apply Z.lt_succ_r. rewrite Zlt_Qlt. unfold Z.succ. rewrite inject_Z_plus.
      change (inject_Z 0) with 0%Q. change (inject_Z 1) with 1%Q.
      subst months. lra.
    - apply Z.lt_succ_r. rewrite Zlt_Qlt. unfold Z.succ.
      change (inject_Z (12 + 1)) with 13%Q. subst months. lra. }
  assert (Hir : i = Z.max 0 (r - 1)).
  { subst i r months. unfold WaveformViewer.safeMonthIndex. cbv zeta.
    fold (JS.floor decimalYear). case_match; lia. }
  refine (conj Hi (conj Hy (conj _ (conj _ _)))).
  - unfold WaveformViewer.formatDecimalYear, WaveformViewer.integerToString,
      WaveformViewer.month_text, JS.index.
    fold i. destruct (Z.ltb_spec i 0) as [?|_]; [lia|].
    destruct (Z.leb_spec (Z.abs (JS.floor decimalYear)) 9007199254740991)
      as [_|?]; [|lia].
    cbn [fmap option_fmap option_map].
    destruct (WaveformViewer.MONTH_NAMES !! Z.to_nat i) as [m|] eqn:E.
    + by exists m.
    + apply lookup_ge_None in E. cbn in E. lia.
  - rewrite Hir. split.
    + intros E. assert (r <= 1)%Z as Hle by lia.
      rewrite Zle_Qle in Hle. change (inject_Z 1) with 1%Q in Hle. lra.
    + intros Hm. assert (r < 2)%Z; [|lia].
      rewrite Zlt_Qlt. change (inject_Z 2) with 2%Q. lra.
  - intros k Hk. rewrite Hir. split.
    + intros E. assert (r = k + 1)%Z as -> by lia.
      rewrite inject_Z_plus in Hr1, Hr2. change (inject_Z 1) with 1%Q in *.
      split; lra.
    + intros [H1 H2]. assert (r = k + 1)%Z; [|lia].
      apply Math_round_spec. rewrite inject_Z_plus. change (inject_Z 1) with 1%Q.
      split; lra.
Qed.

Lemma formatDecimalYear_names_a_month_witness :
  (2017 <= 202541 # 100)%Q /\ (202541 # 100 <= 2026)%Q
  /\ (1 <= 4 <= 11)%Z
  /\ WaveformViewer.safeMonthIndex (202541 # 100) = 4%Z
  /\ WaveformViewer.formatDecimalYear (202541 # 100) = Some "May 2025".
Proof.
  assert (Hlo : (2017 <= 202541 # 100)%Q) by (intros E; discriminate E).
  assert (Hhi : (202541 # 100 <= 2026)%Q) by (intros E; discriminate E).
  pose proof (formatDecimalYear_names_a_month (202541 # 100) Hlo Hhi)
    as (_ & _ & _ & _ & H).
  assert (Hk : (1 <= 4 <= 11)%Z) by lia.
  split; [exact Hlo|]. split; [exact Hhi|]. split; [exact Hk|].
  split; [|reflexivity].
  apply (H 4%Z Hk). split; [intros E; discriminate E | reflexivity].
Defined.

(** X20. Moving the mouse over a container of positive width sets the
    cursor to a time from 2017 to 2026: 2017 at the left edge and left
    of it, 2026 at the right edge and right of it, and in between 2017
    plus nine times the share of the width the mouse has passed.
    Without a container the cursor is not set. *)
Theorem cursor_time_range (container : option DOMRect.t) (clientX : Q) :
  (container = None -> WaveformViewer.handleMouseMove container clientX = None)
  /\ (forall rect,
        container = Some rect -> (0 < DOMRect.width rect)%Q ->
        exists t,
          WaveformViewer.handleMouseMove container clientX = Some (Some t)
          /\ (2017 <= t)%Q /\ (t <= 2026)%Q
          /\ ((clientX <= DOMRect.left rect)%Q -> (t == 2017)%Q)
          /\ ((DOMRect.left rect + DOMRect.width rect <= clientX)%Q ->
              (t == 2026)%Q)
          /\ ((DOMRect.left rect <= clientX)%Q ->
              (clientX <= DOMRect.left rect + DOMRect.width rect)%Q ->
              (t == 2017 + (clientX - DOMRect.left rect) / DOMRect.width rect * 9)%Q)).
Proof.
  split; [by intros ->|]. intros rect -> Hw.
  unfold WaveformViewer.handleMouseMove, WaveformViewer.pct. cbv zeta.
  assert (Hne : Qeq_bool (DOMRect.width rect) 0 = false).
  { destruct (Qeq_bool (DOMRect.width rect) 0) eqn:E; [|done].
    apply Qeq_bool_iff in E. lra. }
  rewrite Hne. cbn [fmap option_fmap option_map].
  eexists. split; [reflexivity|].
  unfold WaveformViewer.duration, WaveformViewer.startYear, WaveformViewer.endYear.
  set (x := (clientX - DOMRect.left rect)%Q).
  assert (Hd0 : (x <= 0 -> x / DOMRect.width rect <= 0)%Q).
  { intros Hx. apply Qle_shift_div_r; [done|]. lra. }
  assert (Hd1 : (DOMRect.width rect <= x -> 1 <= x / DOMRect.width rect)%Q).
  { intros Hx. apply Qle_shift_div_l; [done|]. lra. }
  assert (Hd2 : (0 <= x -> 0 <= x / DOMRect.width rect)%Q).
  { intros Hx. apply Qle_shift_div_l; [done|]. lra. }
  assert (Hd3 : (x <= DOMRect.width rect -> x / DOMRect.width rect <= 1)%Q).
  { intros Hx. apply Qle_shift_div_r; [done|]. lra. }
  assert (Hx : (x == clientX - DOMRect.left rect)%Q) by reflexivity.
  set (d := (x / DOMRect.width rect)%Q) in *. clearbody d. clearbody x.
  pose proof (Q.min_spec 1 d) as Hmin.
  pose proof (Q.max_spec 0 (Qmin 1 d)) as Hmax.
  set (p := Qmax 0 (Qmin 1 d)) in *. set (m := Qmin 1 d) in *.
  clearbody p. clearbody m.
  destruct Hmin as [[Hm1 Hm2]|[Hm1 Hm2]]; destruct Hmax as [[Hx1 Hx2]|[Hx1 Hx2]];
    (split_and!; [lra | lra | intros; lra | intros; lra | intros; lra]).
Qed.

Lemma cursor_time_range_witness :
  let rect := DOMRect.mk 100 0 900 500 in
  (0 < DOMRect.width rect)%Q
  /\ exists t,
       WaveformViewer.handleMouseMove (Some rect) 550 = Some (Some t)
       /\ (2017 <= t)%Q /\ (t <= 2026)%Q.
Proof.
  intros rect.
  assert (Hw : (0 < DOMRect.width rect)%Q) by reflexivity.
  split; [exact Hw|].
  destruct (proj2 (cursor_time_range (Some rect) 550) rect eq_refl Hw)
    as (t & H1 & H2 & H3 & _).
  exists t. split; [exact H1|]. split; [exact H2 | exact H3].
Defined.

Ltac cursor_cases :=
  repeat match goal with
         | |- context [Qle_bool ?a ?c] =>
             let E := fresh "E" in
             destruct (Qle_bool a c) eqn:E;
             [apply Qle_bool_iff in E
             |apply not_true_iff_false in E; rewrite Qle_bool_iff in E;
              apply Qnot_le_lt in E];
             cbn [andb negb]
         end.

(** X21. The entry the side bar shows for a cursor time. It is the one
    with id 0 from 2025.41 up to 2026, id 1 from 2023.5 up to 2025.41,
    id 2 from 2022.75 up to 2023.25, and id 3 from 2017.75 up to 2022.75
    and from 2023.25 up to 2023.33. Where no entry holds the cursor,
    before 2017.75, from 2023.33 up to 2023.5 and from 2026 on, it is
    the first entry of the data, the one with id 0; an entry is shown at
    every cursor time. *)
Theorem activeData_by_cursor (cursorTime : Q) :
  exists d,
    WaveformViewer.activeData cursorTime = Some d
    /\ d ∈ TraceData.TRACE_DATA
    /\ ((202541 # 100 <= cursorTime)%Q -> (cursorTime < 2026)%Q ->
        TraceData.id d = 0%Z)
    /\ ((20235 # 10 <= cursorTime)%Q -> (cursorTime < 202541 # 100)%Q ->
        TraceData.id d = 1%Z)
    /\ ((202275 # 100 <= cursorTime)%Q -> (cursorTime < 202325 # 100)%Q ->
        TraceData.id d = 2%Z)
    /\ ((201775 # 100 <= cursorTime)%Q -> (cursorTime < 202275 # 100)%Q ->
        TraceData.id d = 3%Z)
    /\ ((202325 # 100 <= cursorTime)%Q -> (cursorTime < 202333 # 100)%Q ->
        TraceData.id d = 3%Z)
    /\ ((cursorTime < 201775 # 100)%Q
        \/ ((202333 # 100 <= cursorTime)%Q /\ (cursorTime < 20235 # 10)%Q)
        \/ (2026 <= cursorTime)%Q ->
        TraceData.TRACE_DATA !! 0%nat = Some d).
Proof.
  unfold WaveformViewer.activeData, TraceData.TRACE_DATA.
  cbn [find TraceData.start TraceData.end_].
  cursor_cases; cbn [lookup list_lookup]; eexists; (split; [reflexivity|]);
    (split; [repeat first [apply list_elem_of_here | apply list_elem_of_further]|]);
    cbn [TraceData.id]; split_and!; intros; try done; try lra;
    repeat match goal with H : _ \/ _ |- _ => destruct H end; lra.
Qed.

Lemma activeData_by_cursor_witness :
  exists d,
    WaveformViewer.activeData (20234 # 10) = Some d
    /\ TraceData.TRACE_DATA !! 0%nat = Some d
    /\ TraceData.title d = "Senior Design Verification Engineer".
Proof.
  destruct (activeData_by_cursor (20234 # 10)) as (d & H1 & _ & _ & _ & _ & _ & _ & H2).
  exists d. split; [exact H1|].
  assert (H : TraceData.TRACE_DATA !! 0%nat = Some d).
  { apply H2. right. left. split; [intros E; discriminate E | reflexivity]. }
  split; [exact H|]. injection H as <-. reflexivity.
Defined.

Lemma string_length_app (a b : string) :
  String.length (a +:+ b) = (String.length a + String.length b)%nat.
Proof. induction a as [|c a IH]; cbn; [done | by rewrite IH]. Qed.

Lemma substring_0_length (n : nat) (s : string) :
  String.length (substring 0 n s) = Nat.min n (String.length s).
Proof.
  revert s. induction n as [|n IH]; intros [|c s]; cbn; try done.
  by rewrite IH.
Qed.

Lemma substring_0_all (n : nat) (s : string) :
  (String.length s <= n)%nat -> substring 0 n s = s.
Proof.
  revert s. induction n as [|n IH]; intros [|c s]; cbn; try done; try lia.
  intros H. rewrite IH; [done | lia].
Qed.

Lemma substring_0_split (n : nat) (s : string) :
  exists rest, s = substring 0 n s +:+ rest.
Proof.
  revert s. induction n as [|n IH]; intros [|c s]; cbn.
  - by exists EmptyString.
  - by eexists.
  - by exists EmptyString.
  - destruct (IH s) as [rest E]. exists rest. by rewrite <- E.
Qed.

(** X22. The value a bus row shows has at most 19 code units. A text of
    at most 16 code units is shown as it is; a longer one is cut to its
    first 16 code units, followed by three dots. *)
Theorem bus_value_cut (s : string) :
  (String.length (WaveformViewer.bus_value s) <= 19)%nat
  /\ ((String.length s <= 16)%nat -> WaveformViewer.bus_value s = s)
  /\ ((16 < String.length s)%nat ->
      String.length (WaveformViewer.bus_value s) = 19%nat
      /\ exists head rest,
           String.length head = 16%nat /\ s = head +:+ rest
           /\ WaveformViewer.bus_value s = head +:+ "...").
Proof.
  unfold WaveformViewer.bus_value. split_and!.
  - rewrite string_length_app, substring_0_length.
    case_match; cbn [String.length]; lia.
  - intros H. rewrite substring_0_all by done.
    destruct (Nat.ltb_spec 16 (String.length s)); [lia|]. apply append_empty_r.
  - intros H. destruct (Nat.ltb_spec 16 (String.length s)); [|lia]. split.
    + rewrite string_length_app, substring_0_length. cbn [String.length]. lia.
    + destruct (substring_0_split 16 s) as [rest E].
      exists (substring 0 16 s), rest. split_and!; [|done..].
      rewrite substring_0_length. lia.
Qed.

Lemma bus_value_cut_witness :
  (16 < String.length "Memorial University of Newfoundland")%nat
  /\ WaveformViewer.bus_value "Memorial University of Newfoundland"
     = "Memorial Univers..."
  /\ WaveformViewer.bus_value "Marvell" = "Marvell".
Proof.
  assert (H : (16 < String.length "Memorial University of Newfoundland")%nat)
    by (apply Nat.ltb_lt; reflexivity).
  split; [exact H|]. split; [reflexivity|].
  apply (proj1 (proj2 (bus_value_cut "Marvell"))).
  apply Nat.leb_le. reflexivity.
Defined.

(** ** The boot log *)

Lemma schedule_spec (rnd : nat -> Q) (lines : list string) (index : nat) (delay : Q) :
  (forall i, (0 <= rnd i)%Q /\ (rnd i < 1)%Q) ->
  map snd (BootSequence.schedule lines index delay rnd) = lines
  /\ (forall k d,
        map fst (BootSequence.schedule lines index delay rnd) !! k = Some d ->
        (delay + 100 * inject_Z (Z.of_nat (S k)) <= d)%Q
        /\ (d < delay + 400 * inject_Z (Z.of_nat (S k)))%Q)
  /\ (forall k d d',
        map fst (BootSequence.schedule lines index delay rnd) !! k = Some d ->
        map fst (BootSequence.schedule lines index delay rnd) !! S k = Some d' ->
        (d + 100 <= d')%Q /\ (d' < d + 400)%Q).
Proof.
  intros Hrnd. revert index delay.
  induction lines as [|line lines IH]; intros index delay; [done|].
  cbn [BootSequence.schedule map fst snd].
  destruct (IH (S index) (delay + (rnd index * 300 + 100))%Q) as (IH1 & IH2 & IH3).
  destruct (Hrnd index) as [Hlo Hhi].
  split_and!.
  - by rewrite IH1.
  - intros [|k] d Hk.
    + injection Hk as <-. change (inject_Z (Z.of_nat 1)) with 1%Q. split; lra.
    + apply IH2 in Hk as [H1 H2].
      rewrite (Nat2Z.inj_succ (S k)). unfold Z.succ. rewrite inject_Z_plus.
      change (inject_Z 1) with 1%Q. split; lra.
  - intros [|k] d d' Hk Hk'.
    + injection Hk as <-.
      specialize (IH2 0%nat d' Hk'). change (inject_Z (Z.of_nat 1)) with 1%Q in IH2.
      destruct IH2. split; lra.
    + by apply (IH3 k).
Qed.

(** X23. The boot log with draws in [0, 1). The lines are scheduled in
    the order of the log; the delay of each one is at least 100 ms and
    less than 400 ms above the delay of the line before it, so the
    line at index k is shown between 100 (k + 1) and 400 (k + 1) ms
    after the mount, and the completion, set 800 ms after the last
    line, falls between 1800 and 4800 ms after the mount. *)
Theorem boot_schedule (rnd : nat -> Q) :
  (forall i, (0 <= rnd i)%Q /\ (rnd i < 1)%Q) ->
  let delays := map fst (BootSequence.boot rnd) in
  map snd (BootSequence.boot rnd) = BootSequence.bootLog
  /\ (forall k d, delays !! k = Some d ->
        (100 * inject_Z (Z.of_nat (S k)) <= d)%Q
        /\ (d < 400 * inject_Z (Z.of_nat (S k)))%Q)
  /\ (forall k d d', delays !! k = Some d -> delays !! S k = Some d' ->
        (d + 100 <= d')%Q /\ (d' < d + 400)%Q)
  /\ (exists d, last delays = Some d
                /\ (1800 <= d + BootSequence.completion_delay)%Q
                /\ (d + BootSequence.completion_delay < 4800)%Q).
Proof.
  intros Hrnd delays. subst delays. unfold BootSequence.boot.
  destruct (schedule_spec rnd BootSequence.bootLog 0 0 Hrnd) as (H1 & H2 & H3).
  split_and!.
  - exact H1.
  - intros k d Hk. destruct (H2 k d Hk). split; lra.
  - exact H3.
  - assert (Hlen : length (map fst (BootSequence.schedule BootSequence.bootLog 0 0 rnd))
                   = 10%nat).
    { rewrite length_map, <- (length_map snd), H1. reflexivity. }
    destruct (map fst (BootSequence.schedule BootSequence.bootLog 0 0 rnd) !! 9%nat)
      as [d|] eqn:E.
    + exists d. split.
      * rewrite last_lookup, Hlen. exact E.
      * destruct (H2 9%nat d E) as [Ha Hb].
        change (inject_Z (Z.of_nat 10)) with 10%Q in Ha, Hb.
        unfold BootSequence.completion_delay. split; lra.
    + apply lookup_ge_None in E. rewrite Hlen in E. lia.
Qed.

Lemma boot_schedule_witness :
  (forall i : nat, (0 <= (fun _ : nat => 1 # 2) i)%Q /\ ((fun _ : nat => 1 # 2) i < 1)%Q)
  /\ map snd (BootSequence.boot (fun _ => 1 # 2)) = BootSequence.bootLog
  /\ exists d, last (map fst (BootSequence.boot (fun _ => 1 # 2))) = Some d
               /\ (1800 <= d + BootSequence.completion_delay)%Q
               /\ (d + BootSequence.completion_delay < 4800)%Q.
Proof.
  assert (H : forall i : nat,
             (0 <= (fun _ : nat => 1 # 2) i)%Q /\ ((fun _ : nat => 1 # 2) i < 1)%Q).
  { intros _. split; [intros E; discriminate E | reflexivity]. }
  split; [exact H|].
  pose proof (boot_schedule (fun _ => 1 # 2) H) as (H1 & _ & _ & H4).
  split; [exact H1 | exact H4].
Defined.

(** ** The gutter *)

Lemma rows_lookup (currentLine : Z) (i : nat) :
  (i < 50)%nat ->
  VimGutter.rows currentLine !! i
  = Some (let lineNum := (Z.max 0 (currentLine - 25) + Z.of_nat i)%Z in
          if (lineNum <? 0)%Z || (100 <? lineNum)%Z then None
          else Some {| VimGutter.lineNum := lineNum;
                       VimGutter.label :=
                         if (Z.abs (lineNum - currentLine) =? 0)%Z
                         then currentLine else Z.abs (lineNum - currentLine);
                       VimGutter.current :=
                         (Z.abs (lineNum - currentLine) =? 0)%Z |}).
Proof.
  intros Hi. unfold VimGutter.rows. cbv zeta.
  change (Z.to_nat (VimGutter.windowSize * 2)) with 50%nat.
  rewrite list_lookup_fmap, lookup_seq_lt by done. reflexivity.
Qed.

Lemma rows_length (currentLine : Z) :
  length (VimGutter.rows currentLine) = 50%nat.
Proof.
  unfold VimGutter.rows. cbv zeta.
  change (Z.to_nat (VimGutter.windowSize * 2)) with 50%nat.
  by rewrite length_map, length_seq.
Qed.

(** X24. The gutter has fifty places. The row at place i is the line
    [max 0 (currentLine - 25) + i]; it is drawn when that line is at
    most 100, as the current line exactly when it is the current line,
    and it shows the number of the current line when it is the current
    one and its distance from it, which is positive, otherwise. For a
    current line from 0 to 100 the current row is drawn once, at place
    [min currentLine 25]; for a current line outside of that range no
    row is drawn as the current one. *)
Theorem gutter_rows (currentLine : Z) :
  length (VimGutter.rows currentLine) = 50%nat
  /\ (forall i row,
        VimGutter.rows currentLine !! i = Some (Some row) ->
        VimGutter.lineNum row = (Z.max 0 (currentLine - 25) + Z.of_nat i)%Z
        /\ (0 <= VimGutter.lineNum row <= 100)%Z
        /\ (VimGutter.current row = true <-> VimGutter.lineNum row = currentLine)
        /\ (VimGutter.current row = true -> VimGutter.label row = currentLine)
        /\ (VimGutter.current row = false ->
            VimGutter.label row = Z.abs (VimGutter.lineNum row - currentLine)
            /\ (0 < VimGutter.label row)%Z))
  /\ (forall i, (i < 50)%nat ->
        (VimGutter.rows currentLine !! i = Some None
         <-> (100 < Z.max 0 (currentLine - 25) + Z.of_nat i)%Z))
  /\ ((0 <= currentLine <= 100)%Z ->
      forall i,
        (exists row, VimGutter.rows currentLine !! i = Some (Some row)
                     /\ VimGutter.current row = true)
        <-> i = Z.to_nat (Z.min currentLine 25))
  /\ ((currentLine < 0)%Z \/ (100 < currentLine)%Z ->
      forall i row, VimGutter.rows currentLine !! i = Some (Some row) ->
                    VimGutter.current row = false).
Proof.
  assert (Hrow : forall i row,
    VimGutter.rows currentLine !! i = Some (Some row) ->
    (i < 50)%nat
    /\ (Z.max 0 (currentLine - 25) + Z.of_nat i <= 100)%Z
    /\ row = {| VimGutter.lineNum := (Z.max 0 (currentLine - 25) + Z.of_nat i)%Z;
                VimGutter.label :=
                  if (Z.abs (Z.max 0 (currentLine - 25) + Z.of_nat i - currentLine)
                      =? 0)%Z
                  then currentLine
                  else Z.abs (Z.max 0 (currentLine - 25) + Z.of_nat i - currentLine);
                VimGutter.current :=
                  (Z.abs (Z.max 0 (currentLine - 25) + Z.of_nat i - currentLine)
                   =? 0)%Z |}).
  { intros i row H.
    assert (Hi : (i < 50)%nat).
    { apply lookup_lt_Some in H. by rewrite rows_length in H. }
    rewrite rows_lookup in H by done. cbv zeta in H.
    destruct (Z.ltb_spec (Z.max 0 (currentLine - 25) + Z.of_nat i) 0); [lia|].
    destruct (Z.ltb_spec 100 (Z.max 0 (currentLine - 25) + Z.of_nat i));
      cbn [orb] in H; [done|].
    injection H as <-. done. }
  split; [apply rows_length|]. split; [|split; [|split]].
  - intros i row H. destruct (Hrow i row H) as (Hi & Hle & ->).
    cbn [VimGutter.lineNum VimGutter.label VimGutter.current].
    split; [done|]. split; [lia|]. split; [|split].
    + rewrite Z.eqb_eq. lia.
    + by intros ->.
    + intros E. rewrite E. split; [done|]. apply Z.eqb_neq in E. lia.
  - intros i Hi. rewrite rows_lookup by done. cbv zeta.
    destruct (Z.ltb_spec (Z.max 0 (currentLine - 25) + Z.of_nat i) 0); [lia|].
    destruct (Z.ltb_spec 100 (Z.max 0 (currentLine - 25) + Z.of_nat i));
      cbn [orb]; split; try done; lia.
  - intros Hc i. split.
    + intros (row & H & Hcur). destruct (Hrow i row H) as (Hi & Hle & ->).
      cbn [VimGutter.current] in Hcur. apply Z.eqb_eq in Hcur. lia.
    + intros ->. eexists. rewrite rows_lookup by lia. cbv zeta.
      destruct (Z.ltb_spec
                  (Z.max 0 (currentLine - 25)
                   + Z.of_nat (Z.to_nat (Z.min currentLine 25))) 0); [lia|].
      destruct (Z.ltb_spec 100
                  (Z.max 0 (currentLine - 25)
                   + Z.of_nat (Z.to_nat (Z.min currentLine 25)))); [lia|].
      cbn [orb]. split; [reflexivity|]. cbn [VimGutter.current].
      apply Z.eqb_eq. lia.
  - intros Hc i row H. destruct (Hrow i row H) as (Hi & Hle & ->).
    cbn [VimGutter.current]. apply Z.eqb_neq. lia.
Qed.

Lemma gutter_rows_witness :
  (0 <= 90 <= 100)%Z
  /\ (exists row, VimGutter.rows 90 !! 25%nat = Some (Some row)
                  /\ VimGutter.current row = true)
  /\ VimGutter.rows 90 !! 36%nat = Some None.
Proof.
  assert (Hc : (0 <= 90 <= 100)%Z) by lia.
  split; [exact Hc|]. split; [|reflexivity].
  apply (proj1 (proj2 (proj2 (proj2 (gutter_rows 90)))) Hc 25%nat).
  reflexivity.
Defined.

(** ** The scrambled title *)

Lemma get_beyond (s : string) (n : nat) :
  (String.length s <= n)%nat -> String.get n s = None.
Proof.
  revert n. induction s as [|c s IH]; intros [|n]; cbn; try done; try lia.
  intros H. apply IH. lia.
Qed.

Lemma get_within (s : string) (n : nat) :
  (n < String.length s)%nat -> exists c, String.get n s = Some c.
Proof.
  revert n. induction s as [|c s IH]; intros [|n]; cbn; try lia.
  - by eexists.
  - intros H. apply IH. lia.
Qed.

Lemma draw_char (rnd : Q) :
  (0 <= rnd)%Q -> (rnd < 1)%Q ->
  exists c,
    match JS.floor (rnd * inject_Z (Z.of_nat (String.length CyberText.chars))) with
    | Z0 => CyberText.charAt CyberText.chars 0
    | Zpos p => CyberText.charAt CyberText.chars (Pos.to_nat p)
    | Zneg _ => None
    end = Some c
    /\ scramble_char c = true.
Proof.
  intros Hlo Hhi.
  destruct (floor_of_draw rnd 3 Hlo Hhi) as [H0 H3]; [lia|].
  change (String.length CyberText.chars) with 3%nat.
  destruct (JS.floor (rnd * inject_Z (Z.of_nat 3))) as [|p|p]; [| |lia].
  - by eexists.
  - assert (p = 1 \/ p = 2)%positive as [-> | ->] by lia; by eexists.
Qed.

Lemma scramble_from_spec (text : string) (seen : Q) (rnd : nat -> Q)
    (prev : string) (index : nat) :
  (forall i, (0 <= rnd i)%Q /\ (rnd i < 1)%Q) ->
  (index + String.length prev <= String.length text)%nat ->
  String.length (CyberText.scramble_from text seen rnd index prev)
  = String.length prev
  /\ forall j c,
       String.get j (CyberText.scramble_from text seen rnd index prev) = Some c ->
       ((inject_Z (Z.of_nat (index + j)) < seen)%Q ->
        String.get (index + j) text = Some c)
       /\ ((seen <= inject_Z (Z.of_nat (index + j)))%Q -> scramble_char c = true).
Proof.
  intros Hrnd. revert index.
  induction prev as [|a prev IH]; intros index Hlen; [done|].
  cbn [String.length] in Hlen. cbn [CyberText.scramble_from].
  destruct (IH (S index)) as [IHlen IHget]; [lia|].
  destruct (Qlt_le_dec (inject_Z (Z.of_nat index)) seen) as [Hlt|Hge].
  - destruct (get_within text index) as [c0 Hc0]; [lia|].
    unfold CyberText.charAt. rewrite Hc0. cbn [String.length String.get].
    split; [by rewrite IHlen|].
    intros [|j] c Hj.
    + cbn in Hj. injection Hj as <-. rewrite Nat.add_0_r.
      split; [done | intros; lra].
    + cbn in Hj. rewrite Nat.add_succ_r. by apply IHget.
  - destruct (Hrnd index) as [Hlo Hhi].
    destruct (draw_char (rnd index) Hlo Hhi) as (c0 & -> & Hc0).
    cbn [String.length String.get].
    split; [by rewrite IHlen|].
    intros [|j] c Hj.
    + cbn in Hj. injection Hj as <-. rewrite Nat.add_0_r.
      split; [intros; lra | done].
    + cbn in Hj. rewrite Nat.add_succ_r. by apply IHget.
Qed.

Lemma eighths (n len : nat) :
  ((n < 8 * len)%nat ->
   (inject_Z (Z.of_nat n) * (1 # 8) < inject_Z (Z.of_nat len))%Q)
  /\ ((8 * len <= n)%nat ->
      (inject_Z (Z.of_nat len) <= inject_Z (Z.of_nat n) * (1 # 8))%Q).
Proof.
  split; intros H.
  - assert (Z.of_nat n < 8 * Z.of_nat len)%Z as Hz by lia.
    rewrite Zlt_Qlt, inject_Z_mult in Hz. change (inject_Z 8) with 8%Q in Hz. lra.
  - assert (8 * Z.of_nat len <= Z.of_nat n)%Z as Hz by lia.
    rewrite Zle_Qle, inject_Z_mult in Hz. change (inject_Z 8) with 8%Q in Hz. lra.
Qed.

Section Scramble.

Variables (text shown : string) (rnds : nat -> nat -> Q) (seen : nat -> Q).
Hypothesis Hlen : String.length shown = String.length text.
Hypothesis Hrnd : forall n i, (0 <= rnds n i)%Q /\ (rnds n i < 1)%Q.

Lemma run_progress (n : nat) :
  (n <= 8 * String.length text)%nat ->
  let st := CyberText.run text rnds seen n (CyberText.start shown) in
  CyberText.cleared st = false
  /\ (CyberText.iterations st == inject_Z (Z.of_nat n) * (1 # 8))%Q
  /\ String.length (CyberText.displayText st) = String.length text.
Proof.
  induction n as [|n IH]; intros Hn.
  - cbn. split; [done|]. split; [reflexivity | exact Hlen].
  - destruct IH as (Hc & Hit & Hl); [lia|].
    cbn [CyberText.run]. cbv zeta. rewrite Hc.
    unfold CyberText.tick.
    cbn [CyberText.cleared CyberText.iterations CyberText.displayText].
    split_and!.
    + destruct (Qlt_le_dec _ _) as [_|Hge]; [done|].
      pose proof (proj1 (eighths n (String.length text))) as He.
      specialize (He ltac:(lia)). lra.
    + rewrite Hit, Nat2Z.inj_succ. unfold Z.succ. rewrite inject_Z_plus.
      change (inject_Z 1) with 1%Q. lra.
    + rewrite <- Hl.
      apply (scramble_from_spec text (seen n) (rnds n) _ 0 (Hrnd n)). cbn. lia.
Qed.

Lemma run_last :
  let st := CyberText.run text rnds seen (S (8 * String.length text))
              (CyberText.start shown) in
  CyberText.cleared st = true
  /\ st = CyberText.tick text (rnds (8 * String.length text)%nat)
            (seen (8 * String.length text)%nat)
            (CyberText.run text rnds seen (8 * String.length text)
               (CyberText.start shown)).
Proof.
  destruct (run_progress (8 * String.length text)) as (Hc & Hit & Hl); [lia|].
  cbn [CyberText.run]. cbv zeta. rewrite Hc. split; [|done].
  unfold CyberText.tick. cbn [CyberText.cleared].
  destruct (Qlt_le_dec _ _) as [Hlt|_]; [|done].
  pose proof (proj2 (eighths (8 * String.length text) (String.length text))) as He.
  specialize (He ltac:(lia)). lra.
Qed.

Lemma run_stops (n : nat) :
  (S (8 * String.length text) <= n)%nat ->
  CyberText.run text rnds seen n (CyberText.start shown)
  = CyberText.run text rnds seen (S (8 * String.length text)) (CyberText.start shown).
Proof.
  induction 1 as [|n Hn IH]; [done|].
  change (CyberText.run text rnds seen (S n) (CyberText.start shown))
    with (let st' := CyberText.run text rnds seen n (CyberText.start shown) in
          if CyberText.cleared st' then st'
          else CyberText.tick text (rnds n) (seen n) st').
  cbv zeta. rewrite IH. by rewrite (proj1 run_last).
Qed.

End Scramble.

(** X25. One scramble of a title that is as long as its text, with
    draws in [0, 1), the function of each run reading the counter as it
    is when the run starts or later. The callback runs 8 n + 1 times
    for a text of n code units and then the interval is cleared; from
    then on the title shows the text. After every run the title is as
    long as the text; a place below the counter read shows the code
    unit of the text, every other place one of X, 0 and 1. *)
Theorem scramble_settles (text shown : string) (rnds : nat -> nat -> Q)
    (seen : nat -> Q) :
  String.length shown = String.length text ->
  (forall n i, (0 <= rnds n i)%Q /\ (rnds n i < 1)%Q) ->
  (forall n, (inject_Z (Z.of_nat n) * (1 # 8) <= seen n)%Q) ->
  let runs := S (8 * String.length text) in
  let after n := CyberText.run text rnds seen n (CyberText.start shown) in
  (forall n, (n < runs)%nat -> CyberText.cleared (after n) = false)
  /\ CyberText.cleared (after runs) = true
  /\ (forall n, (runs <= n)%nat ->
        after n = after runs /\ CyberText.displayText (after n) = text)
  /\ (forall n, String.length (CyberText.displayText (after n)) = String.length text)
  /\ (forall n j c,
        (n < runs)%nat ->
        String.get j (CyberText.displayText (after (S n))) = Some c ->
        ((inject_Z (Z.of_nat j) < seen n)%Q -> String.get j text = Some c)
        /\ ((seen n <= inject_Z (Z.of_nat j))%Q -> scramble_char c = true)).
Proof.
  intros Hlen Hrnd Hseen runs after.
  assert (Hstep : forall n, (n < runs)%nat ->
    after (S n) = CyberText.tick text (rnds n) (seen n) (after n)
    /\ String.length (CyberText.displayText (after n)) = String.length text).
  { intros n Hn.
    destruct (run_progress text shown rnds seen Hlen Hrnd n) as (Hc & _ & Hl);
      [subst runs; lia|].
    split; [|exact Hl]. subst after. cbn [CyberText.run]. cbv zeta.
    by rewrite Hc. }
  assert (Hspec : forall n, (n < runs)%nat ->
    String.length (CyberText.displayText (after (S n))) = String.length text
    /\ forall j c,
         String.get j (CyberText.displayText (after (S n))) = Some c ->
         ((inject_Z (Z.of_nat j) < seen n)%Q -> String.get j text = Some c)
         /\ ((seen n <= inject_Z (Z.of_nat j))%Q -> scramble_char c = true)).
  { intros n Hn. destruct (Hstep n Hn) as [E Hl]. rewrite E.
    unfold CyberText.tick. cbn [CyberText.displayText].
    destruct (scramble_from_spec text (seen n) (rnds n)
                (CyberText.displayText (after n)) 0 (Hrnd n)) as [H1 H2].
    { cbn. lia. }
    split; [by rewrite H1|]. exact H2. }
  assert (Hfinal : CyberText.displayText (after runs) = text).
  { destruct (Hspec (8 * String.length text)%nat) as [Hl Hget];
      [subst runs; lia|].
    fold runs in Hl, Hget. apply String.get_correct. intros j.
    destruct (Nat.lt_ge_cases j (String.length text)) as [Hj|Hj].
    - destruct (get_within (CyberText.displayText (after runs)) j) as [c Hc];
        [lia|].
      rewrite Hc. symmetry. apply (Hget j c Hc).
      pose proof (Hseen (8 * String.length text)%nat) as Hs.
      pose proof (proj2 (eighths (8 * String.length text) (String.length text)))
        as He.
      specialize (He ltac:(lia)).
      assert (inject_Z (Z.of_nat j) < inject_Z (Z.of_nat (String.length text)))%Q.
      { rewrite <- Zlt_Qlt. lia. }
      lra.
    - rewrite !get_beyond by lia. done. }
  split_and!.
  - intros n Hn.
    apply (run_progress text shown rnds seen Hlen Hrnd n). subst runs. lia.
  - apply (run_last text shown rnds seen Hlen Hrnd).
  - intros n Hn.
    assert (E : after n = after runs)
      by apply (run_stops text shown rnds seen Hlen Hrnd n Hn).
    split; [exact E|]. by rewrite E.
  - intros n. destruct (Nat.lt_ge_cases n runs) as [Hn|Hn].
    + apply (Hstep n Hn).
    + assert (E : after n = after runs)
        by apply (run_stops text shown rnds seen Hlen Hrnd n Hn).
      by rewrite E, Hfinal.
  - intros n j c Hn. apply (Hspec n Hn).
Qed.

Lemma scramble_settles_witness :
  let rnds := fun (_ _ : nat) => 1 # 2 in
  let seen := fun n : nat => (inject_Z (Z.of_nat n) * (1 # 8))%Q in
  String.length "XX" = String.length "Hi"
  /\ CyberText.displayText
       (CyberText.run "Hi" rnds seen 17 (CyberText.start "XX")) = "Hi"
  /\ CyberText.displayText
       (CyberText.run "Hi" rnds seen 9 (CyberText.start "XX")) = "H0".
Proof.
  intros rnds seen.
  assert (H1 : forall n i : nat, (0 <= rnds n i)%Q /\ (rnds n i < 1)%Q).
  { intros n i. split; [intros E; discriminate E | reflexivity]. }
  assert (H2 : forall n : nat, (inject_Z (Z.of_nat n) * (1 # 8) <= seen n)%Q).
  { intros n. apply Qle_refl. }
  split; [reflexivity|]. split; [|reflexivity].
  pose proof (scramble_settles "Hi" "XX" rnds seen eq_refl H1 H2) as (_ & _ & H & _).
  exact (proj2 (H 17%nat (le_n 17))).
Defined.
